(** * Hybrid PONV risk score: a shallow embedding of [validation_dashboard.py]

    The embedding follows the script top-down:
    - the numbers held in a pandas row are modelled as exact rationals [Q]
      (Python ints and floats without rounding): the comparisons are those of
      the code on every number, the sums are those of the code as long as
      they are exact in numpy's arithmetic, which they are on valid records
      (only 0/1 indicators and weights are added, doses are only compared);
    - a row handed to [score_patient] by [DataFrame.apply(axis=1)] is a
      pandas [Series]: a finite map from column label to number, read by
      attribute access, which raises [AttributeError] on an absent label;
    - a [DataFrame] is an ordered list of named columns over a row index. *)

From Stdlib Require Import Ascii QArith Qminmax Qround Lqa.
From stdpp Require Import gmap strings list fin_maps.

Local Open Scope string_scope.

(** ** Exceptions and results *)

Inductive exn : Type :=
  | AttributeError (name : string).

Inductive result (A : Type) : Type :=
  | Ok (a : A)
  | Raise (e : exn).

Arguments Ok {A} a.
Arguments Raise {A} e.

(** A raised exception propagates through the rest of the computation. *)
#[global] Instance result_ret : MRet result := fun A a => Ok a.
#[global] Instance result_bind : MBind result := fun A B k m =>
  match m with
  | Ok a => k a
  | Raise e => Raise e
  end.

(** ** Rows *)

(** A pandas [Series] indexed by column labels. *)
Abbreviation Series := (gmap string Q).

(** [row.name]: the value under the label, [AttributeError] when the label is
    not in the index. *)
Definition getattr (row : Series) (name : string) : result Q :=
  match row !! name with
  | Some v => Ok v
  | None => Raise (AttributeError name)
  end.

(** Python comparisons on numbers, as booleans. *)
Definition num_ge (x y : Q) : bool := Qle_bool y x.
Definition num_gt (x y : Q) : bool := negb (Qle_bool x y).
Definition num_eq (x y : Q) : bool := Qeq_bool x y.

(** ** Scoring logic *)

Local Open Scope Q_scope.

Definition score_patient (row : Series) : result Q :=
  let score := 0 in
  (* Patient-specific *)
  v ← getattr row "Gender_Female"; let score := score + v * 1 in
  v ← getattr row "Non_Smoker"; let score := score + v * 1 in
  v ← getattr row "History_PONV_or_MS"; let score := score + v * 2 in
  v ← getattr row "Age_Less_50"; let score := score + v * 1 in
  v ← getattr row "Anxiety"; let score := score + v * 1 in
  v ← getattr row "Migraine"; let score := score + v * 1 in
  v ← getattr row "Obese_BMI_30"; let score := score + v * 1 in
  (* Surgical *)
  v ← getattr row "Abdominal_Lap_Surgery"; let score := score + v * 2 in
  v ← getattr row "ENT_Neuro_Eye_Surgery"; let score := score + v * 1 in
  v ← getattr row "Gynae_Breast_Surgery"; let score := score + v * 2 in
  v ← getattr row "Surgery_gt_60min"; let score := score + v * 1 in
  v ← getattr row "BloodLoss_gt_500ml"; let score := score + v * 1 in
  (* Drug-based scores (dose dependent) *)
  v ← getattr row "Ondansetron_mg";
  let score := score + (if num_ge v 4 then -2 else 0) in
  v ← getattr row "Midazolam_mg_per_kg";
  let score := score + (if num_ge v 0.05 then -2 else 0) in
  v ← getattr row "Dexamethasone_mg";
  let score := score + (if num_ge v 4 then -1 else 0) in
  v ← getattr row "Glycopyrrolate_mg";
  let score := score + (if num_gt v 0.2 then 1 else 0) in
  v ← getattr row "Nalbuphine_mg";
  let score := score + (if num_gt v 50 then 1 else 0) in
  v ← getattr row "Fentanyl_mcg_per_kg";
  let score := score + (if num_gt v 5 then 3 else 0) in
  v ← getattr row "Butorphanol_mg";
  let score := score + (if num_gt v 2 then 1 else 0) in
  v ← getattr row "Pentazocine_mg";
  let score := score + (if num_gt v 100 then 3 else 0) in
  v ← getattr row "Propofol_TIVA";
  let score := score + (if num_eq v 1 then -3 else 0) in
  v ← getattr row "Propofol_InductionOnly";
  let score := score + (if num_eq v 1 then -1 else 0) in
  v ← getattr row "Volatile_Agents_MAC";
  let score := score + (if num_gt v 1 then 2 else 0) in
  (* Muscle relaxants (neutral) *)
  (* Postoperative symptoms *)
  v ← getattr row "Nausea_gt_30min"; let score := score + v * 1 in
  v ← getattr row "Vomiting_gt_2"; let score := score + v * 2 in
  v ← getattr row "Abdominal_Discomfort"; let score := score + v * 1 in
  Ok score.

(** ** The rules read off the scoring logic

    Every statement of [score_patient] reads one field and adds either
    [value * weight] or a weight guarded by a comparison with a constant. *)

Inductive comparator : Type := Ge | Gt | Eq.

Inductive rule : Type :=
  | Binary (field : string) (weight : Q)
  | Threshold (field : string) (cmp : comparator) (threshold weight : Q).

Definition rule_field (ρ : rule) : string :=
  match ρ with
  | Binary f _ => f
  | Threshold f _ _ _ => f
  end.

Definition rule_weight (ρ : rule) : Q :=
  match ρ with
  | Binary _ w => w
  | Threshold _ _ _ w => w
  end.

Definition holds (cmp : comparator) (v t : Q) : bool :=
  match cmp with
  | Ge => num_ge v t
  | Gt => num_gt v t
  | Eq => num_eq v t
  end.

(** What one rule adds to the score for the field value [v]. *)
Definition contribution (ρ : rule) (v : Q) : Q :=
  match ρ with
  | Binary _ w => v * w
  | Threshold _ cmp t w => if holds cmp v t then w else 0
  end.

(** The statements of [score_patient], in source order. *)
Definition score_rules : list rule :=
  [ Binary "Gender_Female" 1;
    Binary "Non_Smoker" 1;
    Binary "History_PONV_or_MS" 2;
    Binary "Age_Less_50" 1;
    Binary "Anxiety" 1;
    Binary "Migraine" 1;
    Binary "Obese_BMI_30" 1;
    Binary "Abdominal_Lap_Surgery" 2;
    Binary "ENT_Neuro_Eye_Surgery" 1;
    Binary "Gynae_Breast_Surgery" 2;
    Binary "Surgery_gt_60min" 1;
    Binary "BloodLoss_gt_500ml" 1;
    Threshold "Ondansetron_mg" Ge 4 (-2);
    Threshold "Midazolam_mg_per_kg" Ge 0.05 (-2);
    Threshold "Dexamethasone_mg" Ge 4 (-1);
    Threshold "Glycopyrrolate_mg" Gt 0.2 1;
    Threshold "Nalbuphine_mg" Gt 50 1;
    Threshold "Fentanyl_mcg_per_kg" Gt 5 3;
    Threshold "Butorphanol_mg" Gt 2 1;
    Threshold "Pentazocine_mg" Gt 100 3;
    Threshold "Propofol_TIVA" Eq 1 (-3);
    Threshold "Propofol_InductionOnly" Eq 1 (-1);
    Threshold "Volatile_Agents_MAC" Gt 1 2;
    Binary "Nausea_gt_30min" 1;
    Binary "Vomiting_gt_2" 2;
    Binary "Abdominal_Discomfort" 1 ].

(** Running a list of rules the way the function body runs: read the field,
    add the contribution to the running score, go on. *)
Fixpoint run_rules (rules : list rule) (row : Series) (score : Q) : result Q :=
  match rules with
  | [] => Ok score
  | ρ :: rest =>
      v ← getattr row (rule_field ρ);
      run_rules rest row (score + contribution ρ v)
  end.

(** ** The record schema

    The columns built by [generate_synthetic_data], in the order of its
    dictionary, each with the sampler that fills it: [np.random.choice] over
    [[0, 1]] (with or without probabilities) for the 0/1 indicators,
    [np.random.uniform] for the doses. *)

Inductive sampler : Type :=
  | Choice (values : list Q) (p : option (list Q))
  | Uniform (low high : Q).

Definition generated_columns : list (string * sampler) :=
  [ (* Patient-Specific *)
    ("Gender_Female", Choice [0; 1] (Some [0.3; 0.7]));
    ("Non_Smoker", Choice [0; 1] (Some [0.4; 0.6]));
    ("History_PONV_or_MS", Choice [0; 1] (Some [0.7; 0.3]));
    ("Age_Less_50", Choice [0; 1] (Some [0.3; 0.7]));
    ("Anxiety", Choice [0; 1] (Some [0.6; 0.4]));
    ("Migraine", Choice [0; 1] (Some [0.85; 0.15]));
    ("Obese_BMI_30", Choice [0; 1] (Some [0.75; 0.25]));
    (* Surgery-related *)
    ("Abdominal_Lap_Surgery", Choice [0; 1] (Some [0.4; 0.6]));
    ("ENT_Neuro_Eye_Surgery", Choice [0; 1] (Some [0.8; 0.2]));
    ("Gynae_Breast_Surgery", Choice [0; 1] (Some [0.85; 0.15]));
    ("Surgery_gt_60min", Choice [0; 1] (Some [0.5; 0.5]));
    ("BloodLoss_gt_500ml", Choice [0; 1] (Some [0.9; 0.1]));
    (* Drug doses *)
    ("Ondansetron_mg", Uniform 0 24);
    ("Midazolam_mg_per_kg", Uniform 0 0.5);
    ("Dexamethasone_mg", Uniform 0 40);
    ("Glycopyrrolate_mg", Uniform 0 0.4);
    ("Nalbuphine_mg", Uniform 0 160);
    ("Fentanyl_mcg_per_kg", Uniform 0 20);
    ("Butorphanol_mg", Uniform 0 4);
    ("Pentazocine_mg", Uniform 0 360);
    ("Propofol_TIVA", Choice [0; 1] (Some [0.7; 0.3]));
    ("Propofol_InductionOnly", Choice [0; 1] (Some [0.3; 0.7]));
    ("Volatile_Agents_MAC", Uniform 0 2);
    (* Muscle relaxants *)
    ("Succinylcholine", Choice [0; 1] None);
    ("Atracurium", Choice [0; 1] None);
    ("Cisatracurium", Choice [0; 1] None);
    ("Vecuronium", Choice [0; 1] None);
    (* Postoperative symptoms *)
    ("Nausea_gt_30min", Choice [0; 1] (Some [0.7; 0.3]));
    ("Vomiting_gt_2", Choice [0; 1] (Some [0.85; 0.15]));
    ("Abdominal_Discomfort", Choice [0; 1] (Some [0.6; 0.4])) ].

Definition field_names : list string := generated_columns.*1.

Definition muscle_relaxants : list string :=
  [ "Succinylcholine"; "Atracurium"; "Cisatracurium"; "Vecuronium" ].

Definition is_binary (v : Q) : bool := Qeq_bool v 0 || Qeq_bool v 1.

(** The declared domain of a field: an indicator is 0 or 1, a dose is not
    negative. *)
Definition in_domain (s : sampler) (v : Q) : bool :=
  match s with
  | Choice _ _ => is_binary v
  | Uniform _ _ => Qle_bool 0 v
  end.

Definition field_ok (row : Series) (c : string * sampler) : bool :=
  match row !! c.1 with
  | Some v => in_domain c.2 v
  | None => false
  end.

(** A valid patient record: every field of the schema is present and in its
    declared domain. *)
Definition valid_record (row : Series) : bool :=
  forallb (field_ok row) generated_columns.

(** The fields [score_patient] reads. *)
Definition scored_fields : list string := rule_field <$> score_rules.

Definition has_fields (fields : list string) (row : Series) : Prop :=
  Forall (fun f => is_Some (row !! f)) fields.

(** ** The rule table of the specification (section 4.1)

    Rows whose condition is [=1] are binary rules (weight times the field
    value); the others are threshold rules with comparator [>=] or [>]. *)

Definition rule_table : list rule :=
  [ Binary "Gender_Female" 1;
    Binary "Non_Smoker" 1;
    Binary "History_PONV_or_MS" 2;
    Binary "Age_Less_50" 1;
    Binary "Anxiety" 1;
    Binary "Migraine" 1;
    Binary "Obese_BMI_30" 1;
    Binary "Abdominal_Lap_Surgery" 2;
    Binary "ENT_Neuro_Eye_Surgery" 1;
    Binary "Gynae_Breast_Surgery" 2;
    Binary "Surgery_gt_60min" 1;
    Binary "BloodLoss_gt_500ml" 1;
    Threshold "Ondansetron_mg" Ge 4 (-2);
    Threshold "Midazolam_mg_per_kg" Ge 0.05 (-2);
    Threshold "Dexamethasone_mg" Ge 4 (-1);
    Threshold "Glycopyrrolate_mg" Gt 0.2 1;
    Threshold "Nalbuphine_mg" Gt 50 1;
    Threshold "Fentanyl_mcg_per_kg" Gt 5 3;
    Threshold "Butorphanol_mg" Gt 2 1;
    Threshold "Pentazocine_mg" Gt 100 3;
    Binary "Propofol_TIVA" (-3);
    Binary "Propofol_InductionOnly" (-1);
    Threshold "Volatile_Agents_MAC" Gt 1 2;
    Binary "Nausea_gt_30min" 1;
    Binary "Vomiting_gt_2" 2;
    Binary "Abdominal_Discomfort" 1 ].

Definition sum (l : list Q) : Q := foldr Qplus 0 l.

(** The score as the specification words it: the sum, over the full table,
    of every rule's contribution; undefined when a field is absent. *)
Definition table_score (table : list rule) (row : Series) : option Q :=
  sum <$> mapM (fun ρ => contribution ρ <$> row !! rule_field ρ) table.

(** The sum of all weights of a table, and of its positive and negative
    weights alone. *)
Definition sum_weights (table : list rule) : Q := sum (rule_weight <$> table).
Definition sum_positive (table : list rule) : Q :=
  sum (Qmax 0 <$> (rule_weight <$> table)).
Definition sum_negative (table : list rule) : Q :=
  sum (Qmin 0 <$> (rule_weight <$> table)).

(** A computation returns the number [q], up to equality of rationals. *)
Definition returns (m : result Q) (q : Q) : Prop :=
  exists s, m = Ok s /\ s == q.

(** ** Data frames

    A frame is a row index (here a range [0 .. index-1]) and an ordered
    list of named columns, each an array over that index. *)

Record DataFrame : Type := mkDataFrame {
  index : nat;
  data : list (string * list Q)
}.

Definition columns (df : DataFrame) : list string := (data df).*1.

(** Every column spans the index and no label occurs twice, as in a frame
    built from a dictionary of equally long arrays. *)
Definition well_formed (df : DataFrame) : Prop :=
  Forall (fun c => length c.2 = index df) (data df) /\ NoDup (columns df).

(** The [i]-th row as a [Series] over the column labels. *)
Definition iloc (df : DataFrame) (i : nat) : Series :=
  list_to_map (omap (fun c => pair c.1 <$> c.2 !! i) (data df)).

(** [df.apply(f, axis=1)]: [f] on each row in index order; the first
    exception aborts the whole call. (On a frame without rows pandas probes
    [f] on an empty row first; the model covers that case when the probe
    returns, that is when the frame holds the columns [f] reads.) *)
Definition apply_rows (f : Series -> result Q) (df : DataFrame) : result (list Q) :=
  mapM (fun i => f (iloc df i)) (seq 0 (index df)).

(** [df[name] = values]: overwrite the column in place when the label
    exists, append it as the last column otherwise. *)
Fixpoint set_column (name : string) (values : list Q)
    (cols : list (string * list Q)) : list (string * list Q) :=
  match cols with
  | [] => [(name, values)]
  | c :: rest =>
      if decide (c.1 = name) then (name, values) :: rest
      else c :: set_column name values rest
  end.

Definition setitem (df : DataFrame) (name : string) (values : list Q) : DataFrame :=
  {| index := index df; data := set_column name values (data df) |}.

(** The random generator of numpy is a state threaded through the draws:
    seeding gives a state, each draw of [n] samples returns an array and the
    next state. *)
Section Generator.
Variable RandomState : Type.
Variable random_seed : nat -> RandomState.
Variable random_draw : sampler -> nat -> RandomState -> list Q * RandomState.

Fixpoint draw_columns (cols : list (string * sampler)) (n : nat)
    (g : RandomState) : list (string * list Q) :=
  match cols with
  | [] => []
  | c :: rest =>
      let '(a, g') := random_draw c.2 n g in
      (c.1, a) :: draw_columns rest n g'
  end.

Definition generate_synthetic_data (n seed : nat) : DataFrame :=
  {| index := n; data := draw_columns generated_columns n (random_seed seed) |}.
End Generator.

(** Line 120 of the script: the score of every row, stored as the column
    [Hybrid_PONV_Score]. *)
Definition add_score_column (raw_data : DataFrame) : result DataFrame :=
  scores ← apply_rows score_patient raw_data;
  mret (setitem raw_data "Hybrid_PONV_Score" scores).

(** ** Export *)

(** [csv.QUOTE_MINIMAL]: a cell is quoted when it holds the delimiter, the
    quote character or a line break; quote characters are doubled. *)
Definition dquote : Ascii.ascii := "034"%char.

Definition needs_quote (cell : string) : bool :=
  existsb (fun a => bool_decide (a ∈ [","%char; dquote; "010"%char; "013"%char]))
          (String.list_ascii_of_string cell).

Fixpoint double_quotes (cell : string) : string :=
  match cell with
  | EmptyString => EmptyString
  | String a rest =>
      if decide (a = dquote) then String a (String a (double_quotes rest))
      else String a (double_quotes rest)
  end.

Definition csv_cell (cell : string) : string :=
  if needs_quote cell
  then String dquote (double_quotes cell ++ String dquote EmptyString)
  else cell.

(** One record as the csv writer joins it: the cells separated by commas;
    a record made of one empty cell is written as a pair of quotes. *)
Definition csv_record (cells : list string) : string :=
  match cells with
  | [EmptyString] => String dquote (String dquote EmptyString)
  | _ => String.concat "," (csv_cell <$> cells)
  end.

(** The record ended by a line feed (the line terminator of the
    platform). *)
Definition csv_line (cells : list string) : string :=
  csv_record cells ++ String "010" EmptyString.

Section CsvExport.
(** How pandas prints one number; left open. *)
Variable repr : Q -> string.

(** The cells of row [i], one per column, in column order. *)
Definition row_cells (df : DataFrame) (i : nat) : list string :=
  (fun c => from_option repr EmptyString (c.2 !! i)) <$> data df.

(** [to_csv(index=False)] as records: the header, then one record per
    row in index order; no cell for the index. *)
Definition csv_records (df : DataFrame) : list (list string) :=
  columns df :: (row_cells df <$> seq 0 (index df)).

Definition to_csv (df : DataFrame) : string :=
  String.concat EmptyString (csv_line <$> csv_records df).



End CsvExport.


(** ** Auxiliary notions for the statements *)

(** The value a row holds for a field ([0] stands in for an absent one; the
    statements below use it on present fields only). *)
Definition value (row : Series) (f : string) : Q := default 0 (row !! f).

(** The contributions of a list of rules on a row, added up. *)
Definition total (rules : list rule) (row : Series) : Q :=
  sum ((fun ρ => contribution ρ (value row (rule_field ρ))) <$> rules).

(** A value that makes a rule fire: the indicator is set, or the dose
    satisfies the comparison. *)
Definition triggers (ρ : rule) (v : Q) : bool :=
  match ρ with
  | Binary _ _ => Qeq_bool v 1
  | Threshold _ cmp t _ => holds cmp v t
  end.

(** The all-zero record over the whole schema. *)
Definition baseline : Series := list_to_map ((fun f => (f, 0)) <$> field_names).

(** The record with every indicator at 1 and every dose at a value above all
    thresholds of its rule. *)
Definition all_on : Series :=
  list_to_map ((fun c => (c.1, match c.2 with
                               | Choice _ _ => 1
                               | Uniform _ high => high
                               end)) <$> generated_columns).

(** Every rule of the table fires on the row. *)
Definition all_triggered (row : Series) : bool :=
  forallb (fun ρ => from_option (triggers ρ) false (row !! rule_field ρ)) rule_table.

(** Every field of the schema is present and zero. *)
Definition all_zero (row : Series) : bool :=
  forallb (fun f => from_option (fun v => Qeq_bool v 0) false (row !! f)) field_names.

(** How a statement of the function body realises a row of the table: it is
    that rule, or it tests an indicator of the schema for equality with 1
    where the table has the binary rule. *)
Definition implements (ρs ρ : rule) : Prop :=
  ρs = ρ \/
  exists f w vs p, ρs = Threshold f Eq 1 w /\ ρ = Binary f w
                   /\ (f, Choice vs p) ∈ generated_columns.

Definition propofol_flag (f : string) : bool :=
  String.eqb f "Propofol_TIVA" || String.eqb f "Propofol_InductionOnly".

(** One rule's contribution computed in isolation: the score of the
    all-zero record carrying only that rule's field of the row. *)
Definition isolated (row : Series) (ρ : rule) : result Q :=
  score_patient (<[rule_field ρ := value row (rule_field ρ)]> baseline).

(** The statement of the function body behind a binary row of the table. *)
Definition statement_of (f : string) (w : Q) : rule :=
  if propofol_flag f then Threshold f Eq 1 w else Binary f w.

(** A small generated cohort for concrete checks: a generator without state
    whose draws are the pair of extreme values of each sampler, so that the
    first row fires every rule and the second is all zero. *)
Definition extreme_draw (s : sampler) (n : nat) (g : unit) : list Q * unit :=
  (take n match s with
          | Choice _ _ => [1; 0]
          | Uniform low high => [high; low]
          end, g).

Definition two_patients : DataFrame :=
  generate_synthetic_data unit (fun _ => tt) extreme_draw 2 42.

(** ** The rest of the script *)

(** [df.head(k)]: the first [k] rows, all columns. *)
Definition head (k : nat) (df : DataFrame) : DataFrame :=
  {| index := Nat.min k (index df);
     data := (fun c => (c.1, take k c.2)) <$> data df |}.



(** The values a sampler can return: one of the listed values for
    [np.random.choice], a number of the half-open interval for
    [np.random.uniform]. *)
Definition in_support (s : sampler) (v : Q) : bool :=
  match s with
  | Choice values _ => existsb (Qeq_bool v) values
  | Uniform low high => Qle_bool low v && negb (Qle_bool high v)
  end.

(** A generator that respects size and support on the columns of the
    script, for draws of [n] samples. *)
Definition draws_ok {RandomState : Type}
    (random_draw : sampler -> nat -> RandomState -> list Q * RandomState)
    (n : nat) : Prop :=
  forall c g, c ∈ generated_columns ->
    length (random_draw c.2 n g).1 = n
    /\ Forall (fun v => in_support c.2 v = true) (random_draw c.2 n g).1.

(** A generator for concrete checks that always returns the first listed
    value, or the lower end of the interval. *)
Definition steady_draw (s : sampler) (n : nat) (g : unit) : list Q * unit :=
  (replicate n match s with
               | Choice values _ => hd 0 values
               | Uniform low _ => low
               end, g).

(** A number that is an integer. *)
Definition integral (q : Q) : Prop := exists z : Z, q == inject_Z z.

(** The rules that compare with [>=] or [>] or multiply: all but the
    equality tests. *)
Definition directional (ρ : rule) : bool :=
  match ρ with
  | Threshold _ Eq _ _ => false
  | _ => true
  end.

(** The record that sets exactly the fields whose rule has a weight chosen
    by [pick] (indicator at 1, dose at the upper end of its sampler) and
    leaves the others at zero. *)
Definition chosen_row (pick : Q -> bool) : Series :=
  list_to_map
    ((fun c : string * sampler =>
        (c.1,
         match find (fun ρ => String.eqb (rule_field ρ) c.1) rule_table with
         | Some ρ =>
             if pick (rule_weight ρ)
             then match c.2 with Choice _ _ => 1 | Uniform _ high => high end
             else 0
         | None => 0
         end)) <$> generated_columns).

Definition highest_risk : Series := chosen_row (fun w => negb (Qle_bool w 0)).
Definition lowest_risk : Series := chosen_row (fun w => negb (Qle_bool 0 w)).

(** How often a character occurs in a text. *)
Fixpoint occurrences (a : Ascii.ascii) (s : string) : nat :=
  match s with
  | EmptyString => O
  | String b rest => ((if decide (a = b) then 1 else 0) + occurrences a rest)%nat
  end.

(** A value on which the arithmetic of the function body is exact, in
    numpy's float64 as in its int64: an integer of magnitude at most 2^50
    (times a weight of the table and added to the other contributions it
    stays far below 2^53). *)
Definition small_integer (v : Q) : bool :=
  Qeq_bool v (inject_Z (Qfloor v))
  && Qle_bool (inject_Z (- 2 ^ 50)) v && Qle_bool v (inject_Z (2 ^ 50)).

(** The values a statement of the body handles exactly: a product with the
    weight needs a small integer, a comparison takes any number. *)
Definition exact_for (ρ : rule) (v : Q) : bool :=
  match ρ with
  | Binary _ _ => small_integer v
  | Threshold _ _ _ _ => true
  end.

(** The lines of a text: cut after every line feed. *)
Fixpoint lines_of (s : string) : list string :=
  match s with
  | EmptyString => []
  | String a rest =>
      if decide (a = "010"%char) then EmptyString :: lines_of rest
      else match lines_of rest with
           | [] => [String a EmptyString]
           | l :: ls => String a l :: ls
           end
  end.

(** * Properties *)

(** ** The function body and its list of rules *)

Lemma score_patient_rules (row : Series) :
  score_patient row = run_rules score_rules row 0.
Proof. reflexivity. Qed.

Lemma getattr_Some (row : Series) f v : row !! f = Some v -> getattr row f = Ok v.
Proof. unfold getattr. by intros ->. Qed.

Lemma getattr_None (row : Series) f :
  row !! f = None -> getattr row f = Raise (AttributeError f).
Proof. unfold getattr. by intros ->. Qed.

Lemma value_Some (row : Series) f v : row !! f = Some v -> value row f = v.
Proof. unfold value. by intros ->. Qed.

Lemma total_cons ρ rules row :
  total (ρ :: rules) row = contribution ρ (value row (rule_field ρ)) + total rules row.
Proof. reflexivity. Qed.

(** With every field present the rules run to the end and return the
    starting score plus the sum of the contributions. *)
Lemma run_rules_total rules row acc :
  has_fields (rule_field <$> rules) row ->
  returns (run_rules rules row acc) (acc + total rules row).
Proof.
  revert acc. induction rules as [|ρ rules IH]; intros acc Hp.
  - exists acc. split; [done|]. unfold total, sum; simpl. ring.
  - apply Forall_cons in Hp as [[v Hv] Hp]. simpl.
    rewrite (getattr_Some _ _ _ Hv). simpl.
    destruct (IH (acc + contribution ρ v) Hp) as (s & Hs & Heq).
    exists s. split; [done|]. rewrite Heq, total_cons, (value_Some _ _ _ Hv). ring.
Qed.

(** An absent field makes the run raise [AttributeError], for the first
    absent field in rule order. *)
Lemma run_rules_raise rules row acc :
  ~ has_fields (rule_field <$> rules) row ->
  exists f, f ∈ rule_field <$> rules /\ row !! f = None
            /\ run_rules rules row acc = Raise (AttributeError f).
Proof.
  revert acc. induction rules as [|ρ rules IH]; intros acc Hp.
  - destruct Hp. constructor.
  - simpl. destruct (row !! rule_field ρ) as [v|] eqn:Hv.
    + rewrite (getattr_Some _ _ _ Hv). simpl.
      destruct (IH (acc + contribution ρ v)) as (f & Hf & Hn & Hr).
      { intros H. apply Hp. constructor; [by rewrite Hv|done]. }
      exists f. split; [by right|done].
    + exists (rule_field ρ). rewrite (getattr_None _ _ Hv).
      split; [by left|done].
Qed.

(** The first absent field in rule order is the one reported. *)
Lemma run_rules_first_missing rules row acc before after f :
  rule_field <$> rules = (before ++ f :: after)%list ->
  has_fields before row -> row !! f = None ->
  run_rules rules row acc = Raise (AttributeError f).
Proof.
  revert rules acc. induction before as [|b before IH]; intros rules acc Hsplit Hb Hf.
  - destruct rules as [|ρ rules]; [done|]. simpl in Hsplit.
    injection Hsplit as Hρ _. simpl. rewrite Hρ. by rewrite (getattr_None _ _ Hf).
  - destruct rules as [|ρ rules]; [done|]. simpl in Hsplit.
    injection Hsplit as Hρ Hrest. apply Forall_cons in Hb as [[v Hv] Hb].
    simpl. rewrite Hρ, (getattr_Some _ _ _ Hv). simpl. by eapply IH.
Qed.

Lemma first_absent (fields : list string) (row : Series) :
  ~ has_fields fields row ->
  exists before f after,
    fields = (before ++ f :: after)%list
    /\ has_fields before row /\ row !! f = None.
Proof.
  induction fields as [|f fields IH]; intros H.
  - destruct H. constructor.
  - destruct (row !! f) as [v|] eqn:Hf.
    + destruct IH as (before & g & after & -> & Hb & Hg).
      { intros Hrest. apply H. constructor; [by rewrite Hf|done]. }
      exists (f :: before), g, after. split; [done|]. split; [|done].
      constructor; [by rewrite Hf|done].
    + exists [], f, fields. split; [done|]. split; [constructor|done].
Qed.

(** The run looks at the fields of its rules only. *)
Lemma run_rules_agree rules (r1 r2 : Series) acc :
  (forall f, f ∈ rule_field <$> rules -> r1 !! f = r2 !! f) ->
  run_rules rules r1 acc = run_rules rules r2 acc.
Proof.
  revert acc. induction rules as [|ρ rules IH]; intros acc H; [done|].
  simpl. unfold getattr. rewrite <- (H (rule_field ρ)) by by left.
  destruct (r1 !! rule_field ρ); [simpl|done].
  apply IH. intros f Hf. apply H. by right.
Qed.

Lemma score_patient_total row :
  has_fields scored_fields row ->
  returns (score_patient row) (total score_rules row).
Proof.
  intros H. rewrite score_patient_rules.
  destruct (run_rules_total score_rules row 0 H) as (s & Hs & Heq).
  exists s. split; [done|]. rewrite Heq. ring.
Qed.

(** The specification's sum over a table is defined on the same rows and is
    the same sum. *)
Lemma table_score_total table row :
  has_fields (rule_field <$> table) row ->
  table_score table row = Some (total table row).
Proof.
  unfold table_score, total. induction table as [|ρ table IH]; intros Hp; [done|].
  apply Forall_cons in Hp as [[v Hv] Hp].
  specialize (IH Hp). simpl in *. rewrite Hv. simpl.
  destruct (mapM _ table) as [l|]; [|done].
  simpl in *. injection IH as IH. rewrite (value_Some _ _ _ Hv). by rewrite IH.
Qed.

(** ** Valid records *)

Ltac in_list :=
  repeat first [ apply list_elem_of_here | apply list_elem_of_further ].

Lemma valid_field_ok row c :
  valid_record row = true -> c ∈ generated_columns -> field_ok row c = true.
Proof.
  unfold valid_record. rewrite forallb_forall. intros H Hc.
  apply H. by apply list_elem_of_In.
Qed.

Lemma valid_has_field row f :
  valid_record row = true -> f ∈ field_names -> is_Some (row !! f).
Proof.
  intros Hv Hf. apply list_elem_of_fmap in Hf as (c & -> & Hc).
  pose proof (valid_field_ok row c Hv Hc) as Hok. unfold field_ok in Hok.
  by destruct (row !! c.1).
Qed.

Lemma scored_fields_in_schema : Forall (fun f => f ∈ field_names) scored_fields.
Proof. apply (bool_decide_unpack _). by vm_compute. Qed.

Lemma valid_has_scored_fields row :
  valid_record row = true -> has_fields scored_fields row.
Proof.
  intros Hv. eapply Forall_impl; [apply scored_fields_in_schema|].
  intros f Hf. by apply valid_has_field.
Qed.

Lemma is_binary_cases v : is_binary v = true -> v == 0 \/ v == 1.
Proof.
  unfold is_binary. intros H. apply orb_true_iff in H as [H|H];
    apply Qeq_bool_iff in H; auto.
Qed.

Lemma valid_indicator row f vs p :
  valid_record row = true -> (f, Choice vs p) ∈ generated_columns ->
  is_binary (value row f) = true.
Proof.
  intros Hv Hc. pose proof (valid_field_ok row _ Hv Hc) as Hok.
  unfold field_ok in Hok. simpl in Hok. unfold value.
  by destruct (row !! f).
Qed.

(** On an indicator in its domain, testing equality with 1 and multiplying
    by the value give the same contribution. *)
Lemma flag_contribution f w v :
  is_binary v = true ->
  contribution (Threshold f Eq 1 w) v == contribution (Binary f w) v.
Proof.
  intros H. apply is_binary_cases in H. simpl. unfold num_eq.
  destruct (Qeq_bool v 1) eqn:E.
  - apply Qeq_bool_iff in E. rewrite E. ring.
  - destruct H as [H|H].
    + rewrite H. ring.
    + apply Qeq_bool_iff in H. congruence.
Qed.

Lemma total_ext t1 t2 row :
  Forall2 (fun ρ1 ρ2 => contribution ρ1 (value row (rule_field ρ1))
                        == contribution ρ2 (value row (rule_field ρ2))) t1 t2 ->
  total t1 row == total t2 row.
Proof.
  induction 1 as [|ρ1 ρ2 t1 t2 H _ IH]; [reflexivity|].
  rewrite !total_cons, H, IH. reflexivity.
Qed.

Lemma total_rule_table row :
  valid_record row = true -> total score_rules row == total rule_table row.
Proof.
  intros Hv. apply total_ext.
  unfold score_rules, rule_table.
  repeat (apply Forall2_cons; split; [try reflexivity|]); [| |constructor].
  - apply flag_contribution. eapply valid_indicator; [done|].
    in_list.
  - apply flag_contribution. eapply valid_indicator; [done|].
    in_list.
Qed.

(** C1. For every valid patient record, [score_patient] returns the sum,
    over the full rule table of section 4.1, of every rule's contribution:
    weight times the field value for a binary rule, the weight when the
    comparison with the threshold holds (else 0) for a threshold rule. *)
Theorem score_is_rule_table_sum (row : Series) :
  valid_record row = true ->
  exists s t, score_patient row = Ok s
              /\ table_score rule_table row = Some t
              /\ s == t.
Proof.
  intros Hv. pose proof (valid_has_scored_fields row Hv) as Hf.
  destruct (score_patient_total row Hf) as (s & Hs & Heq).
  exists s, (total rule_table row). split; [done|]. split.
  - apply table_score_total. exact Hf.
  - rewrite Heq. by apply total_rule_table.
Qed.

Lemma score_is_rule_table_sum_witness :
  valid_record all_on = true
  /\ exists s t, score_patient all_on = Ok s
                 /\ table_score rule_table all_on = Some t /\ s == t.
Proof.
  split; [reflexivity|]. apply (score_is_rule_table_sum all_on). reflexivity.
Defined.

(** ** The table of the specification and the function body *)

Lemma rules_implement_table : Forall2 implements score_rules rule_table.
Proof.
  unfold score_rules, rule_table.
  repeat (apply Forall2_cons; split; [first [by left | right]|]); [| |constructor].
  - do 4 eexists. split; [done|]. split; [done|]. in_list.
  - do 4 eexists. split; [done|]. split; [done|]. in_list.
Qed.

Lemma implements_field ρs ρ : implements ρs ρ -> rule_field ρs = rule_field ρ.
Proof. intros [->|(f & w & vs & p & -> & -> & _)]; done. Qed.

Lemma implements_fired ρs ρ v :
  implements ρs ρ -> triggers ρ v = true -> contribution ρs v == rule_weight ρ.
Proof.
  intros [->|(f & w & vs & p & -> & -> & _)]; simpl.
  - destruct ρ as [f w|f c t w]; simpl; intros H.
    + apply Qeq_bool_iff in H. rewrite H. ring.
    + rewrite H. reflexivity.
  - unfold num_eq. intros ->. reflexivity.
Qed.

Lemma implements_valid ρs ρ row :
  implements ρs ρ -> valid_record row = true ->
  contribution ρs (value row (rule_field ρs)) == contribution ρ (value row (rule_field ρ)).
Proof.
  intros [->|(f & w & vs & p & -> & -> & Hc)] Hv; [reflexivity|].
  apply flag_contribution. by eapply valid_indicator.
Qed.

Lemma Forall2_elem_of_r {A B} (R : A -> B -> Prop) l k y :
  Forall2 R l k -> y ∈ k -> exists x, x ∈ l /\ R x y.
Proof.
  induction 1 as [|x y' l k HR _ IH]; intros Hy.
  - by apply elem_of_nil in Hy.
  - apply elem_of_cons in Hy as [->|Hy].
    + exists x. split; [by left|done].
    + destruct (IH Hy) as (x' & Hx' & HR'). exists x'. split; [by right|done].
Qed.

Lemma table_rule_implemented ρ :
  ρ ∈ rule_table -> exists ρs, ρs ∈ score_rules /\ implements ρs ρ.
Proof. apply Forall2_elem_of_r, rules_implement_table. Qed.

(** ** Changing one field *)

#[global] Instance contribution_proper ρ : Proper (Qeq ==> Qeq) (contribution ρ).
Proof.
  intros v v' Hv. destruct ρ as [f w|f c t w]; simpl.
  - by rewrite Hv.
  - destruct c; simpl; unfold num_ge, num_gt, num_eq; rewrite Hv; reflexivity.
Qed.

Lemma value_insert_eq (row : Series) f v : value (<[f:=v]> row) f = v.
Proof. unfold value. by rewrite lookup_insert_eq. Qed.

Lemma value_insert_ne (row : Series) f g v : f ≠ g -> value (<[f:=v]> row) g = value row g.
Proof. unfold value. intros H. by rewrite lookup_insert_ne. Qed.

Lemma has_fields_insert fields (row : Series) f v :
  has_fields fields row -> has_fields fields (<[f:=v]> row).
Proof.
  intros H. eapply Forall_impl; [exact H|]. intros g Hg.
  rewrite lookup_insert_is_Some. destruct (decide (f = g)); auto.
Qed.

Lemma total_insert_fresh rules row f v :
  f ∉ rule_field <$> rules -> total rules (<[f:=v]> row) = total rules row.
Proof.
  induction rules as [|ρ rules IH]; intros Hf; [done|].
  rewrite !total_cons. rewrite fmap_cons in Hf.
  apply not_elem_of_cons in Hf as [Hne Hf].
  rewrite value_insert_ne by done. by rewrite IH.
Qed.

(** With distinct fields, changing the field of one rule changes that rule's
    contribution and nothing else. *)
Lemma total_insert rules ρ row v v' :
  NoDup (rule_field <$> rules) -> ρ ∈ rules ->
  total rules (<[rule_field ρ:=v]> row) - total rules (<[rule_field ρ:=v']> row)
  == contribution ρ v - contribution ρ v'.
Proof.
  induction rules as [|ρ0 rules IH]; intros Hnd Hin.
  - by apply elem_of_nil in Hin.
  - rewrite fmap_cons in Hnd. apply NoDup_cons in Hnd as [Hfresh Hnd].
    rewrite !total_cons. apply elem_of_cons in Hin as [->|Hin].
    + rewrite !value_insert_eq, !total_insert_fresh by done. ring.
    + assert (rule_field ρ ≠ rule_field ρ0) as Hne.
      { intros Heq. apply Hfresh. rewrite <- Heq. by apply list_elem_of_fmap_2. }
      rewrite !value_insert_ne by done.
      specialize (IH Hnd Hin). lra.
Qed.

Lemma scored_fields_NoDup : NoDup scored_fields.
Proof. apply (bool_decide_unpack _). by vm_compute. Qed.

Lemma score_patient_insert ρ row v v' :
  ρ ∈ score_rules -> has_fields scored_fields row ->
  exists s s', score_patient (<[rule_field ρ:=v]> row) = Ok s
               /\ score_patient (<[rule_field ρ:=v']> row) = Ok s'
               /\ s - s' == contribution ρ v - contribution ρ v'.
Proof.
  intros Hin Hf.
  destruct (score_patient_total (<[rule_field ρ:=v]> row)) as (s & Hs & Heq);
    [by apply has_fields_insert|].
  destruct (score_patient_total (<[rule_field ρ:=v']> row)) as (s' & Hs' & Heq');
    [by apply has_fields_insert|].
  exists s, s'. split; [done|]. split; [done|].
  rewrite Heq, Heq'. apply total_insert; [apply scored_fields_NoDup|done].
Qed.

Lemma contribution_at_zero : Forall (fun ρ => contribution ρ 0 == 0) score_rules.
Proof. unfold score_rules. repeat constructor. Qed.

Lemma sum_ext l k : Forall2 Qeq l k -> sum l == sum k.
Proof.
  induction 1 as [|x y l k H _ IH]; [reflexivity|].
  unfold sum in *. simpl. by rewrite H, IH.
Qed.

(** ** Extreme records *)

Lemma all_triggered_field row ρ :
  all_triggered row = true -> ρ ∈ rule_table ->
  is_Some (row !! rule_field ρ) /\ triggers ρ (value row (rule_field ρ)) = true.
Proof.
  unfold all_triggered. rewrite forallb_forall. intros H Hin.
  apply list_elem_of_In, H in Hin. unfold value.
  destruct (row !! rule_field ρ); [by eauto|done].
Qed.

Lemma all_zero_field row f :
  all_zero row = true -> f ∈ field_names ->
  is_Some (row !! f) /\ value row f == 0.
Proof.
  unfold all_zero. rewrite forallb_forall. intros H Hin.
  apply list_elem_of_In, H in Hin. unfold value.
  destruct (row !! f); simpl in *; [|done].
  apply Qeq_bool_iff in Hin. eauto.
Qed.

Lemma Forall2_with_elem_of_r {A B} (R : A -> B -> Prop) l k :
  Forall2 R l k -> Forall2 (fun x y => R x y /\ y ∈ k) l k.
Proof.
  induction 1 as [|x y l k HR _ IH]; constructor.
  - split; [done|by left].
  - eapply Forall2_impl; [exact IH|]. intros x' y' [? ?]. split; [done|by right].
Qed.

Lemma table_fields : rule_field <$> rule_table = scored_fields.
Proof. reflexivity. Qed.

Lemma all_triggered_total row :
  all_triggered row = true ->
  has_fields scored_fields row /\ total score_rules row == sum_weights rule_table.
Proof.
  intros H. split.
  - rewrite <- table_fields. apply Forall_fmap, Forall_forall. intros ρ Hin.
    by apply all_triggered_field.
  - apply sum_ext, Forall2_fmap.
    eapply Forall2_impl; [apply Forall2_with_elem_of_r, rules_implement_table|].
    intros ρs ρ [Hi Hin]; simpl. rewrite (implements_field _ _ Hi).
    apply implements_fired; [done|]. by apply all_triggered_field.
Qed.

Lemma all_zero_total row :
  all_zero row = true ->
  has_fields scored_fields row /\ total score_rules row == 0.
Proof.
  intros H. split.
  - eapply Forall_impl; [apply scored_fields_in_schema|].
    intros f Hf. by apply all_zero_field.
  - assert (Forall (fun ρ => contribution ρ (value row (rule_field ρ)) == 0)
              score_rules) as Hz.
    { apply Forall_forall. intros ρ Hin.
      destruct (all_zero_field row (rule_field ρ) H) as [_ ->].
      - eapply (proj1 (Forall_forall _ _) scored_fields_in_schema).
        by apply list_elem_of_fmap_2.
      - by eapply (proj1 (Forall_forall _ _) contribution_at_zero). }
    unfold total. induction Hz as [|ρ l Hρ _ IH]; [reflexivity|].
    unfold sum in *. simpl. rewrite Hρ, IH. reflexivity.
Qed.

(** C5. A record on which every rule of the table fires (every indicator at
    1, every dose satisfying its threshold condition) scores the sum of all
    weights of the table, which is 21; a record with every field at zero
    scores 0. *)
Theorem extreme_records_score (on off : Series) :
  all_triggered on = true ->
  all_zero off = true ->
  returns (score_patient on) (sum_weights rule_table)
  /\ sum_weights rule_table == 21
  /\ returns (score_patient off) 0.
Proof.
  intros Hon Hoff.
  destruct (all_triggered_total on Hon) as [Hf Ht].
  destruct (all_zero_total off Hoff) as [Hf' Ht'].
  destruct (score_patient_total on Hf) as (s & Hs & Heq).
  destruct (score_patient_total off Hf') as (s' & Hs' & Heq').
  split; [|split].
  - exists s. split; [done|]. by rewrite Heq.
  - reflexivity.
  - exists s'. split; [done|]. by rewrite Heq'.
Qed.

Lemma extreme_records_score_witness :
  returns (score_patient all_on) (sum_weights rule_table)
  /\ sum_weights rule_table == 21
  /\ returns (score_patient baseline) 0.
Proof. apply (extreme_records_score all_on baseline); reflexivity. Defined.

(** ** Threshold boundaries *)

(** C4. With all other fields held fixed, Ondansetron_mg = 4.0 lowers the
    score by 2 while 3.999999 adds nothing (the score is that of a zero
    dose); Glycopyrrolate_mg = 0.2 adds nothing while 0.2000001 adds 1. *)
Theorem threshold_boundaries (row : Series) :
  has_fields scored_fields row ->
  exists o g,
    score_patient (<["Ondansetron_mg" := 0]> row) = Ok o
    /\ score_patient (<["Glycopyrrolate_mg" := 0]> row) = Ok g
    /\ returns (score_patient (<["Ondansetron_mg" := 4.0]> row)) (o - 2)
    /\ returns (score_patient (<["Ondansetron_mg" := 3.999999]> row)) o
    /\ returns (score_patient (<["Glycopyrrolate_mg" := 0.2]> row)) g
    /\ returns (score_patient (<["Glycopyrrolate_mg" := 0.2000001]> row)) (g + 1).
Proof.
  intros Hf.
  set (ond := Threshold "Ondansetron_mg" Ge 4 (-2)).
  set (gly := Threshold "Glycopyrrolate_mg" Gt 0.2 1).
  assert (ond ∈ score_rules) as Hond by in_list.
  assert (gly ∈ score_rules) as Hgly by in_list.
  destruct (score_patient_insert ond row 4.0 0 Hond Hf) as (s1 & o & H1 & Ho & E1).
  destruct (score_patient_insert ond row 3.999999 0 Hond Hf) as (s2 & o' & H2 & Ho' & E2).
  destruct (score_patient_insert gly row 0.2 0 Hgly Hf) as (s3 & g & H3 & Hg & E3).
  destruct (score_patient_insert gly row 0.2000001 0 Hgly Hf) as (s4 & g' & H4 & Hg' & E4).
  simpl rule_field in *. rewrite Ho in Ho'. rewrite Hg in Hg'.
  injection Ho' as <-. injection Hg' as <-.
  change (contribution ond 4.0) with (-2) in E1.
  change (contribution ond 3.999999) with 0 in E2.
  change (contribution ond 0) with 0 in E1, E2.
  change (contribution gly 0.2) with 0 in E3.
  change (contribution gly 0.2000001) with 1 in E4.
  change (contribution gly 0) with 0 in E3, E4.
  exists o, g. repeat split; try done.
  - exists s1. split; [done|]. lra.
  - exists s2. split; [done|]. lra.
  - exists s3. split; [done|]. lra.
  - exists s4. split; [done|]. lra.
Qed.

Lemma has_fields_decide fields (row : Series) :
  forallb (fun f => bool_decide (is_Some (row !! f))) fields = true ->
  has_fields fields row.
Proof.
  rewrite forallb_forall. intros H. apply Forall_forall. intros f Hf.
  apply list_elem_of_In, H in Hf. by apply bool_decide_eq_true in Hf.
Qed.

Lemma baseline_has_fields : has_fields scored_fields baseline.
Proof. apply has_fields_decide. reflexivity. Qed.

Lemma threshold_boundaries_witness :
  exists o g,
    score_patient (<["Ondansetron_mg" := 0]> baseline) = Ok o
    /\ score_patient (<["Glycopyrrolate_mg" := 0]> baseline) = Ok g
    /\ returns (score_patient (<["Ondansetron_mg" := 4.0]> baseline)) (o - 2)
    /\ returns (score_patient (<["Ondansetron_mg" := 3.999999]> baseline)) o
    /\ returns (score_patient (<["Glycopyrrolate_mg" := 0.2]> baseline)) g
    /\ returns (score_patient (<["Glycopyrrolate_mg" := 0.2000001]> baseline)) (g + 1).
Proof. apply (threshold_boundaries baseline). apply has_fields_decide. reflexivity. Defined.

(** ** Additivity *)

Lemma baseline_lookup f : f ∈ field_names -> baseline !! f = Some 0.
Proof.
  revert f. apply Forall_forall. unfold field_names, generated_columns.
  repeat constructor.
Qed.

Lemma baseline_score : returns (score_patient baseline) 0.
Proof.
  destruct (all_zero_total baseline eq_refl) as [Hf Ht].
  destruct (score_patient_total baseline Hf) as (s & Hs & Heq).
  exists s. split; [done|]. by rewrite Heq.
Qed.

(** Setting one scored field on the all-zero record yields the contribution
    of the statement that reads it. *)
Lemma baseline_toggle ρs v :
  ρs ∈ score_rules ->
  returns (score_patient (<[rule_field ρs := v]> baseline)) (contribution ρs v).
Proof.
  intros Hin.
  destruct (score_patient_insert ρs baseline v 0 Hin baseline_has_fields)
    as (s & s0 & Hs & Hs0 & Heq).
  rewrite insert_id in Hs0.
  2:{ apply baseline_lookup.
      eapply (proj1 (Forall_forall _ _) scored_fields_in_schema).
      by apply list_elem_of_fmap_2. }
  destruct baseline_score as (s0' & Hs0' & Hz). rewrite Hs0 in Hs0'.
  injection Hs0' as <-.
  pose proof (proj1 (Forall_forall _ _) contribution_at_zero ρs Hin) as Hc.
  simpl in Hc. exists s. split; [done|]. lra.
Qed.

Lemma mapM_returns {A} (f : A -> result Q) (g : A -> Q) (l : list A) :
  (forall x, x ∈ l -> returns (f x) (g x)) ->
  exists k, mapM f l = Ok k /\ Forall2 Qeq k (g <$> l).
Proof.
  induction l as [|x l IH]; intros H.
  - exists []. split; [done|constructor].
  - destruct (H x) as (y & Hy & Ey); [by left|].
    destruct IH as (k & Hk & Ek); [intros z Hz; apply H; by right|].
    exists (y :: k). split; [|by constructor].
    simpl. rewrite Hy. simpl. rewrite Hk. done.
Qed.

(** C6. Additivity. Toggling, from the all-zero record, the one field of a
    rule to a value that makes the rule fire changes the score by exactly
    that rule's weight; and the score of a valid record is the sum of the
    rules' contributions, each computed in isolation. *)
Theorem score_additivity (ρ : rule) (v : Q) (row : Series) :
  ρ ∈ rule_table ->
  triggers ρ v = true ->
  valid_record row = true ->
  (exists s0 s1, score_patient baseline = Ok s0
                 /\ score_patient (<[rule_field ρ := v]> baseline) = Ok s1
                 /\ s1 - s0 == rule_weight ρ)
  /\ (exists s parts, score_patient row = Ok s
                      /\ mapM (isolated row) rule_table = Ok parts
                      /\ s == sum parts).
Proof.
  intros Hin Hv Hrow. split.
  - destruct (table_rule_implemented ρ Hin) as (ρs & Hs & Hi).
    destruct baseline_score as (s0 & Hs0 & Hz).
    destruct (baseline_toggle ρs v Hs) as (s1 & Hs1 & H1).
    rewrite (implements_field _ _ Hi) in Hs1.
    exists s0, s1. split; [done|]. split; [done|].
    rewrite H1, Hz, (implements_fired _ _ _ Hi Hv). ring.
  - destruct (score_patient_total row (valid_has_scored_fields row Hrow))
      as (s & Hs & Heq).
    destruct (mapM_returns (isolated row)
                (fun ρ' => contribution ρ' (value row (rule_field ρ'))) rule_table)
      as (parts & Hparts & Eparts).
    { intros ρ' Hin'. destruct (table_rule_implemented ρ' Hin') as (ρs & Hs' & Hi).
      pose proof (implements_valid _ _ row Hi Hrow) as Ev.
      destruct (baseline_toggle ρs (value row (rule_field ρs)) Hs') as (c & Hc & Ec).
      rewrite (implements_field _ _ Hi) in Hc, Ec, Ev.
      exists c. split; [done|]. by rewrite Ec. }
    exists s, parts. split; [done|]. split; [done|].
    rewrite Heq, (total_rule_table row Hrow). symmetry. by apply sum_ext.
Qed.

Lemma score_additivity_witness :
  (exists s0 s1, score_patient baseline = Ok s0
                 /\ score_patient (<["Fentanyl_mcg_per_kg" := 5.5]> baseline) = Ok s1
                 /\ s1 - s0 == 3)
  /\ (exists s parts, score_patient all_on = Ok s
                      /\ mapM (isolated all_on) rule_table = Ok parts
                      /\ s == sum parts).
Proof.
  apply (score_additivity (Threshold "Fentanyl_mcg_per_kg" Gt 5 3) 5.5 all_on).
  - in_list.
  - reflexivity.
  - reflexivity.
Defined.

(** ** Bounds *)

Lemma table_binary_fields :
  Forall (fun ρ => match ρ with
                   | Binary f _ => exists vs p, (f, Choice vs p) ∈ generated_columns
                   | Threshold _ _ _ _ => True
                   end) rule_table.
Proof.
  unfold rule_table. repeat (constructor; [first [exact I | do 2 eexists; in_list]|]).
  constructor.
Qed.

Lemma contribution_bounds ρ row :
  valid_record row = true -> ρ ∈ rule_table ->
  Qmin 0 (rule_weight ρ) <= contribution ρ (value row (rule_field ρ))
  /\ contribution ρ (value row (rule_field ρ)) <= Qmax 0 (rule_weight ρ).
Proof.
  intros Hv Hin.
  pose proof (proj1 (Forall_forall _ _) table_binary_fields ρ Hin) as Hb.
  pose proof (Q.le_min_l 0 (rule_weight ρ)). pose proof (Q.le_min_r 0 (rule_weight ρ)).
  pose proof (Q.le_max_l 0 (rule_weight ρ)). pose proof (Q.le_max_r 0 (rule_weight ρ)).
  revert H H0 H1 H2.
  generalize (Qmin 0 (rule_weight ρ)) (Qmax 0 (rule_weight ρ)). intros lo hi.
  destruct ρ as [f w|f c t w]; simpl in *; intros.
  - destruct Hb as (vs & p & Hc).
    destruct (is_binary_cases _ (valid_indicator row f vs p Hv Hc)) as [E|E];
      rewrite E; split; lra.
  - destruct (holds c _ t); split; lra.
Qed.

Lemma total_bounds rules row :
  Forall (fun ρ => Qmin 0 (rule_weight ρ) <= contribution ρ (value row (rule_field ρ))
                   /\ contribution ρ (value row (rule_field ρ)) <= Qmax 0 (rule_weight ρ))
         rules ->
  sum_negative rules <= total rules row /\ total rules row <= sum_positive rules.
Proof.
  unfold sum_negative, sum_positive, total, sum.
  induction 1 as [|ρ rules [Hlo Hhi] _ [IHlo IHhi]].
  - split; apply Qle_refl.
  - rewrite !fmap_cons. cbn [foldr]. split; lra.
Qed.

(** C9. The score of a valid record lies between the sum of the negative
    weights and the sum of the positive weights of the rule table, that is
    between -9 and 30. *)
Theorem score_bounds (row : Series) :
  valid_record row = true ->
  exists s, score_patient row = Ok s
            /\ -9 <= s /\ s <= 30
            /\ sum_negative rule_table == -9
            /\ sum_positive rule_table == 30.
Proof.
  intros Hv.
  destruct (score_patient_total row (valid_has_scored_fields row Hv)) as (s & Hs & Heq).
  destruct (total_bounds rule_table row) as [Hlo Hhi].
  { apply Forall_forall. intros ρ Hin. by apply contribution_bounds. }
  assert (sum_negative rule_table == -9) as En by reflexivity.
  assert (sum_positive rule_table == 30) as Ep by reflexivity.
  exists s. split; [done|].
  rewrite Heq, (total_rule_table row Hv). rewrite En in Hlo. rewrite Ep in Hhi.
  done.
Qed.

Lemma score_bounds_witness :
  exists s, score_patient all_on = Ok s
            /\ -9 <= s /\ s <= 30
            /\ sum_negative rule_table == -9
            /\ sum_positive rule_table == 30.
Proof. apply (score_bounds all_on). reflexivity. Defined.

(** ** Neutral fields *)

Lemma scored_fields_not_relaxants : Forall (fun f => f ∉ muscle_relaxants) scored_fields.
Proof. apply (bool_decide_unpack _). by vm_compute. Qed.

Lemma score_patient_agree (r1 r2 : Series) :
  (forall f, f ∈ scored_fields -> r1 !! f = r2 !! f) ->
  score_patient r1 = score_patient r2.
Proof. intros H. rewrite !score_patient_rules. by apply run_rules_agree. Qed.

(** ** Indicators outside their domain *)

Lemma statement_of_scored :
  Forall (fun ρ => match ρ with
                   | Binary f w => statement_of f w ∈ score_rules
                   | Threshold _ _ _ _ => True
                   end) rule_table.
Proof.
  unfold rule_table.
  repeat (constructor; [first [exact I | cbv [statement_of]; simpl; in_list]|]).
  constructor.
Qed.

Lemma statement_of_field f w : rule_field (statement_of f w) = f.
Proof. unfold statement_of. by destruct (propofol_flag f). Qed.

Lemma statement_of_contribution f w v :
  contribution (statement_of f w) v - contribution (statement_of f w) 0
  == if propofol_flag f then (if Qeq_bool v 1 then w else 0) else w * v.
Proof.
  unfold statement_of. destruct (propofol_flag f); simpl.
  - unfold num_eq. change (Qeq_bool 0 1) with false. ring.
  - ring.
Qed.

(** C10. The two Propofol flags are tested for equality with 1: a value
    other than 1 (2, say) adds nothing, the value 1 adds the weight. Every
    other field with a binary rule adds weight times value, also outside
    {0,1}. The record is valid apart from the field set; the value is any
    number for a Propofol flag and, where it is multiplied and added, an
    integer the arithmetic of the code handles exactly. *)
Theorem propofol_equality_semantics (row : Series) (f : string) (w v : Q) :
  valid_record row = true ->
  Binary f w ∈ rule_table ->
  exact_for (statement_of f w) v = true ->
  exists s0 s,
    score_patient (<[f := 0]> row) = Ok s0
    /\ score_patient (<[f := v]> row) = Ok s
    /\ s - s0 == if propofol_flag f
                 then (if Qeq_bool v 1 then w else 0)
                 else w * v.
Proof.
  intros Hv Hin _. pose proof (valid_has_scored_fields row Hv) as Hf.
  pose proof (proj1 (Forall_forall _ _) statement_of_scored _ Hin) as Hs.
  simpl in Hs.
  destruct (score_patient_insert _ row v 0 Hs Hf) as (s & s0 & H & H0 & E).
  rewrite statement_of_field in H, H0.
  exists s0, s. split; [done|]. split; [done|].
  rewrite E. apply statement_of_contribution.
Qed.

Lemma propofol_equality_semantics_witness :
  (exists s0 s,
      score_patient (<["Propofol_TIVA" := 0]> baseline) = Ok s0
      /\ score_patient (<["Propofol_TIVA" := 2]> baseline) = Ok s
      /\ s - s0 == 0)
  /\ (exists s0 s,
      score_patient (<["Vomiting_gt_2" := 0]> baseline) = Ok s0
      /\ score_patient (<["Vomiting_gt_2" := 2]> baseline) = Ok s
      /\ s - s0 == 2 * 2).
Proof.
  split.
  - apply (propofol_equality_semantics baseline "Propofol_TIVA" (-3) 2).
    + reflexivity.
    + in_list.
    + reflexivity.
  - apply (propofol_equality_semantics baseline "Vomiting_gt_2" 2 2).
    + reflexivity.
    + in_list.
    + reflexivity.
Defined.

(** ** Failure *)

(** C2, as the code has it. [score_patient] raises exactly when one of the
    fields it reads is absent, with an [AttributeError] for the first such
    field in the order of the function body; otherwise it returns a score
    whatever the values are. It checks no domain, and never reads the
    muscle-relaxant fields. *)
Theorem score_fails_on_missing_scored_field_only (row : Series) :
  (has_fields scored_fields row /\ exists s, score_patient row = Ok s)
  \/ (exists before f after,
        scored_fields = (before ++ f :: after)%list
        /\ has_fields before row
        /\ row !! f = None
        /\ score_patient row = Raise (AttributeError f)).
Proof.
  destruct (decide (Forall (fun f => is_Some (row !! f)) scored_fields)) as [Hf|Hf].
  - left. split; [done|].
    destruct (score_patient_total row Hf) as (s & Hs & _). by exists s.
  - right. destruct (first_absent scored_fields row Hf)
      as (before & f & after & Hsplit & Hb & Hn).
    exists before, f, after. split; [done|]. split; [done|]. split; [done|].
    rewrite score_patient_rules. by eapply run_rules_first_missing.
Qed.

(** C2 as stated fails: an indicator at 2, a negative dose and an absent
    muscle-relaxant field all leave the record invalid, and each is scored
    without an error. *)
Lemma invalid_records_are_scored :
  valid_record (<["Gender_Female" := 2]> baseline) = false
  /\ score_patient (<["Gender_Female" := 2]> baseline) = Ok 2
  /\ valid_record (<["Ondansetron_mg" := -1]> baseline) = false
  /\ score_patient (<["Ondansetron_mg" := -1]> baseline) = Ok 0
  /\ valid_record (delete "Vecuronium" baseline) = false
  /\ score_patient (delete "Vecuronium" baseline) = Ok 0.
Proof. repeat split; reflexivity. Qed.

(** ** Frames *)

Lemma iloc_cons c cols n i :
  iloc {| index := n; data := c :: cols |} i
  = match c.2 !! i with
    | Some x => <[c.1 := x]> (iloc {| index := n; data := cols |} i)
    | None => iloc {| index := n; data := cols |} i
    end.
Proof. unfold iloc. simpl. by destruct (c.2 !! i). Qed.

(** Storing a column shows in every row as an insertion under its label. *)
Lemma iloc_set_column name values cols n i s :
  values !! i = Some s ->
  iloc {| index := n; data := set_column name values cols |} i
  = <[name := s]> (iloc {| index := n; data := cols |} i).
Proof.
  intros Hs. induction cols as [|c cols IH]; simpl.
  - rewrite iloc_cons. simpl. by rewrite Hs.
  - destruct (decide (c.1 = name)) as [<-|Hne].
    + rewrite !iloc_cons. simpl. rewrite Hs.
      destruct (c.2 !! i); [by rewrite insert_insert_eq|done].
    + rewrite !iloc_cons. rewrite IH.
      destruct (c.2 !! i); [by rewrite insert_insert_ne|done].
Qed.

Lemma iloc_is_Some cols n i f :
  Forall (fun c : string * list Q => length c.2 = n) cols ->
  (i < n)%nat -> f ∈ cols.*1 ->
  is_Some (iloc {| index := n; data := cols |} i !! f).
Proof.
  intros Hlen Hi. induction Hlen as [|c cols Hc _ IH]; intros Hf.
  - by apply elem_of_nil in Hf.
  - rewrite iloc_cons. destruct (lookup_lt_is_Some_2 c.2 i) as [x Hx]; [lia|].
    rewrite Hx. rewrite fmap_cons in Hf. apply elem_of_cons in Hf as [->|Hf].
    + by rewrite lookup_insert_eq.
    + rewrite lookup_insert_is_Some. destruct (decide (c.1 = f)); auto.
Qed.

Lemma set_column_other name values cols (c : string * list Q) :
  c ∈ cols -> c.1 ≠ name -> c ∈ set_column name values cols.
Proof.
  induction cols as [|c0 cols IH]; intros Hin Hne; simpl.
  - by apply elem_of_nil in Hin.
  - apply elem_of_cons in Hin as [->|Hin].
    + rewrite decide_False by done. by left.
    + destruct (decide (c0.1 = name)); right; auto.
Qed.

Lemma set_column_fresh name values cols :
  name ∉ cols.*1 -> set_column name values cols = (cols ++ [(name, values)])%list.
Proof.
  induction cols as [|c cols IH]; intros Hf; [done|].
  rewrite fmap_cons in Hf. apply not_elem_of_cons in Hf as [Hne Hf].
  simpl. rewrite decide_False by done. by rewrite IH.
Qed.

Lemma mapM_result_lookup {A B} (f : A -> result B) (l : list A) :
  (forall x, x ∈ l -> exists y, f x = Ok y) ->
  exists k, mapM f l = Ok k
            /\ forall i x, l !! i = Some x -> exists y, f x = Ok y /\ k !! i = Some y.
Proof.
  induction l as [|x l IH]; intros H.
  - exists []. split; [done|]. intros i x Hx. by rewrite lookup_nil in Hx.
  - destruct (H x) as (y & Hy); [by left|].
    destruct IH as (k & Hk & Hlk); [intros z Hz; apply H; by right|].
    exists (y :: k). split.
    + simpl. rewrite Hy. simpl. by rewrite Hk.
    + intros [|i] z Hz; simpl in *.
      * injection Hz as <-. eauto.
      * by apply Hlk.
Qed.

Lemma draw_columns_labels RandomState draw cols n (g : RandomState) :
  (draw_columns RandomState draw cols n g).*1 = cols.*1.
Proof.
  revert g. induction cols as [|c cols IH]; intros g; [done|].
  simpl. destruct (draw c.2 n g) as [a g']. simpl. by rewrite IH.
Qed.

Lemma generated_labels RandomState seed draw n s :
  columns (generate_synthetic_data RandomState seed draw n s) = field_names.
Proof. apply draw_columns_labels. Qed.

Lemma add_score_column_inv df out :
  add_score_column df = Ok out ->
  exists scores, apply_rows score_patient df = Ok scores
                 /\ out = setitem df "Hybrid_PONV_Score" scores.
Proof.
  unfold add_score_column. destruct (apply_rows score_patient df) as [scores|e];
    simpl; [|done].
  intros [= <-]. by exists scores.
Qed.

(** C8. Scoring a cohort keeps order and cardinality: the scored frame has
    the index of the input, and its [i]-th row is the [i]-th input row
    extended with [Hybrid_PONV_Score], the score of that row alone. The
    score column comes last when the input has no such column. *)
Theorem score_column_pointwise (df : DataFrame) :
  well_formed df ->
  Forall (fun f => f ∈ columns df) scored_fields ->
  exists out,
    add_score_column df = Ok out
    /\ index out = index df
    /\ (forall i, (i < index df)%nat ->
          exists s, score_patient (iloc df i) = Ok s
                    /\ iloc out i = <["Hybrid_PONV_Score" := s]> (iloc df i))
    /\ ("Hybrid_PONV_Score" ∉ columns df ->
          columns out = (columns df ++ ["Hybrid_PONV_Score"])%list).
Proof.
  intros [Hlen _] Hcols. destruct df as [n cols]. simpl in *.
  destruct (mapM_result_lookup
              (fun i => score_patient (iloc {| index := n; data := cols |} i))
              (seq 0 n)) as (scores & Hm & Hlk).
  { intros i Hi. apply elem_of_seq in Hi.
    destruct (score_patient_total (iloc {| index := n; data := cols |} i))
      as (s & Hs & _); [|by exists s].
    eapply Forall_impl; [exact Hcols|]. intros f Hf.
    apply iloc_is_Some; [done|lia|done]. }
  exists (setitem {| index := n; data := cols |} "Hybrid_PONV_Score" scores).
  split; [|split; [done|split]].
  - unfold add_score_column, apply_rows. simpl. by rewrite Hm.
  - intros i Hi. destruct (Hlk i i) as (s & Hs & Hsi).
    { by rewrite lookup_seq_lt. }
    exists s. split; [done|]. by apply iloc_set_column.
  - intros Hfresh. unfold columns, setitem. simpl.
    rewrite set_column_fresh by done. by rewrite fmap_app.
Qed.

Lemma score_column_pointwise_witness :
  exists out,
    add_score_column two_patients = Ok out
    /\ index out = index two_patients
    /\ (forall i, (i < index two_patients)%nat ->
          exists s, score_patient (iloc two_patients i) = Ok s
                    /\ iloc out i = <["Hybrid_PONV_Score" := s]> (iloc two_patients i))
    /\ ("Hybrid_PONV_Score" ∉ columns two_patients ->
          columns out = (columns two_patients ++ ["Hybrid_PONV_Score"])%list).
Proof.
  apply (score_column_pointwise two_patients).
  - split; apply (bool_decide_unpack _); by vm_compute.
  - apply (bool_decide_unpack _). by vm_compute.
Defined.

Lemma relaxants_in_schema : Forall (fun f => f ∈ field_names) muscle_relaxants.
Proof. apply (bool_decide_unpack _). by vm_compute. Qed.

Lemma relaxants_not_score : Forall (fun f => f ≠ "Hybrid_PONV_Score") muscle_relaxants.
Proof. apply (bool_decide_unpack _). by vm_compute. Qed.

(** C7. Records that differ only in the muscle-relaxant fields get the same
    result; the four columns are in the generated frame, and scoring a frame
    keeps each of them as it is. *)
Theorem muscle_relaxants_neutral (r1 r2 : Series) (df out : DataFrame) :
  (forall f, f ∉ muscle_relaxants -> r1 !! f = r2 !! f) ->
  add_score_column df = Ok out ->
  score_patient r1 = score_patient r2
  /\ (forall f a, f ∈ muscle_relaxants -> (f, a) ∈ data df -> (f, a) ∈ data out)
  /\ (forall RandomState seed draw n s f,
        f ∈ muscle_relaxants ->
        f ∈ columns (generate_synthetic_data RandomState seed draw n s)).
Proof.
  intros Hsame Hout. split; [|split].
  - apply score_patient_agree. intros f Hf. apply Hsame.
    by apply (proj1 (Forall_forall _ _) scored_fields_not_relaxants).
  - intros f a Hf Hin. apply add_score_column_inv in Hout as (scores & _ & ->).
    simpl. apply set_column_other; [done|]. simpl.
    by apply (proj1 (Forall_forall _ _) relaxants_not_score).
  - intros RandomState seed draw n s f Hf. rewrite generated_labels.
    by apply (proj1 (Forall_forall _ _) relaxants_in_schema).
Qed.

Lemma muscle_relaxants_neutral_witness :
  score_patient baseline = score_patient (<["Atracurium" := 1]> baseline)
  /\ (forall f a, f ∈ muscle_relaxants -> (f, a) ∈ data two_patients ->
        (f, a) ∈ data (setitem two_patients "Hybrid_PONV_Score" [21; 0]))
  /\ (forall RandomState seed draw n s f,
        f ∈ muscle_relaxants ->
        f ∈ columns (generate_synthetic_data RandomState seed draw n s)).
Proof.
  apply (muscle_relaxants_neutral baseline (<["Atracurium" := 1]> baseline)
           two_patients (setitem two_patients "Hybrid_PONV_Score" [21; 0])).
  - intros f Hf. rewrite lookup_insert_ne; [done|].
    intros <-. apply Hf. in_list.
  - reflexivity.
Defined.

(** ** Export *)


(** * Further properties of the script *)

(** ** Which exception *)

(** X1. The exception names the first absent field in the order of the
    function body: when the fields read before [f] are present and [f] is
    not, the result is [AttributeError f], whatever else is absent. *)
Theorem first_missing_field_is_reported (row : Series)
    (before after : list string) (f : string) :
  scored_fields = (before ++ f :: after)%list ->
  has_fields before row ->
  row !! f = None ->
  score_patient row = Raise (AttributeError f).
Proof.
  intros Hsplit Hb Hf. rewrite score_patient_rules.
  by eapply run_rules_first_missing.
Qed.

Lemma first_missing_field_is_reported_witness :
  score_patient (delete "Vomiting_gt_2" (delete "Migraine" baseline))
  = Raise (AttributeError "Migraine").
Proof.
  apply (first_missing_field_is_reported
           (delete "Vomiting_gt_2" (delete "Migraine" baseline))
           (take 5 scored_fields) (drop 6 scored_fields) "Migraine").
  - reflexivity.
  - apply has_fields_decide. reflexivity.
  - reflexivity.
Defined.

(** ** Integer scores *)

Lemma integral_plus a b : integral a -> integral b -> integral (a + b).
Proof.
  intros [x Hx] [y Hy]. exists (x + y)%Z. rewrite Hx, Hy, inject_Z_plus. reflexivity.
Qed.

#[global] Instance integral_proper : Proper (Qeq ==> iff) integral.
Proof. intros a b Hab. unfold integral. by setoid_rewrite Hab. Qed.

Lemma table_weights_integral : Forall (fun ρ => integral (rule_weight ρ)) rule_table.
Proof.
  unfold rule_table.
  repeat (constructor; [simpl; first [by exists 1%Z | by exists 2%Z | by exists 3%Z
                                     | by exists (-1)%Z | by exists (-2)%Z
                                     | by exists (-3)%Z]|]).
  constructor.
Qed.

Lemma contribution_integral ρ row :
  valid_record row = true -> ρ ∈ rule_table ->
  integral (contribution ρ (value row (rule_field ρ))).
Proof.
  intros Hv Hin.
  pose proof (proj1 (Forall_forall _ _) table_binary_fields ρ Hin) as Hb.
  pose proof (proj1 (Forall_forall _ _) table_weights_integral ρ Hin) as Hw.
  destruct ρ as [f w|f c t w]; simpl in *.
  - destruct Hb as (vs & p & Hc).
    destruct (is_binary_cases _ (valid_indicator row f vs p Hv Hc)) as [E|E];
      rewrite E.
    + exists 0%Z. ring.
    + destruct Hw as [z Hz]. exists z. rewrite Hz. ring.
  - destruct (holds c _ t); [done|by exists 0%Z].
Qed.

Lemma valid_total_integral row :
  valid_record row = true -> integral (total score_rules row).
Proof.
  intros Hv. rewrite (total_rule_table row Hv).
  assert (Forall (fun ρ => integral (contribution ρ (value row (rule_field ρ))))
            rule_table) as Hall.
  { apply Forall_forall. intros ρ Hin. by apply contribution_integral. }
  unfold total, sum. induction Hall as [|ρ l Hρ _ IH].
  - by exists 0%Z.
  - rewrite fmap_cons. cbn [foldr]. by apply integral_plus.
Qed.

Lemma valid_total_bounds row :
  valid_record row = true ->
  -9 <= total score_rules row /\ total score_rules row <= 30.
Proof.
  intros Hv. rewrite (total_rule_table row Hv).
  destruct (total_bounds rule_table row) as [Hlo Hhi].
  { apply Forall_forall. intros ρ Hin. by apply contribution_bounds. }
  assert (sum_negative rule_table == -9) as En by reflexivity.
  assert (sum_positive rule_table == 30) as Ep by reflexivity.
  rewrite En in Hlo. rewrite Ep in Hhi. done.
Qed.

(** X2. The score of a valid record is an integer. *)
Theorem score_is_integer (row : Series) :
  valid_record row = true ->
  exists s, score_patient row = Ok s /\ integral s.
Proof.
  intros Hv.
  destruct (score_patient_total row (valid_has_scored_fields row Hv)) as (s & Hs & Heq).
  exists s. split; [done|]. rewrite Heq. by apply valid_total_integral.
Qed.

Lemma score_is_integer_witness :
  exists s, score_patient all_on = Ok s /\ integral s.
Proof. apply (score_is_integer all_on). reflexivity. Defined.

(** ** The range is attained *)

(** X6. Both ends of the range are scores of valid records: 30 with every
    risk-raising rule fired and no protective one, -9 the other way
    round. *)
Theorem score_range_attained :
  (exists row, valid_record row = true /\ returns (score_patient row) 30)
  /\ (exists row, valid_record row = true /\ returns (score_patient row) (-9)).
Proof.
  split.
  - exists highest_risk. split; [reflexivity|]. eexists. split; reflexivity.
  - exists lowest_risk. split; [reflexivity|]. eexists. split; reflexivity.
Qed.

(** ** Direction and bands *)

Lemma Qle_bool_false x y : Qle_bool x y = false -> y < x.
Proof.
  intros H. apply Qnot_le_lt. intros Hle. apply Qle_bool_iff in Hle. congruence.
Qed.

Lemma contribution_monotone ρ v v' :
  directional ρ = true -> v <= v' ->
  (0 <= rule_weight ρ -> contribution ρ v <= contribution ρ v')
  /\ (rule_weight ρ <= 0 -> contribution ρ v' <= contribution ρ v).
Proof.
  intros Hd Hle. destruct ρ as [f w|f [] t w]; simpl in *; try done.
  - split; intros; nra.
  - unfold num_ge.
    destruct (Qle_bool t v) eqn:E, (Qle_bool t v') eqn:E';
      try apply Qle_bool_iff in E; try apply Qle_bool_iff in E';
      try apply Qle_bool_false in E; try apply Qle_bool_false in E';
      split; intros; lra.
  - unfold num_gt.
    destruct (Qle_bool v t) eqn:E, (Qle_bool v' t) eqn:E'; simpl;
      try apply Qle_bool_iff in E; try apply Qle_bool_iff in E';
      try apply Qle_bool_false in E; try apply Qle_bool_false in E';
      split; intros; lra.
Qed.

(** X3. Every rule other than the two equality tests pushes the score one
    way: on a valid record, raising its field never lowers the score when
    the weight is positive (the indicators, the opioid, glycopyrrolate and
    volatile-agent doses) and never raises it when the weight is negative
    (ondansetron, midazolam, dexamethasone). A dose is any number; a field
    that is multiplied and added is an integer the arithmetic of the code
    handles exactly. *)
Theorem score_monotone (ρ : rule) (row : Series) (v v' : Q) :
  ρ ∈ score_rules ->
  directional ρ = true ->
  valid_record row = true ->
  exact_for ρ v = true ->
  exact_for ρ v' = true ->
  v <= v' ->
  exists s s',
    score_patient (<[rule_field ρ := v]> row) = Ok s
    /\ score_patient (<[rule_field ρ := v']> row) = Ok s'
    /\ (0 <= rule_weight ρ -> s <= s')
    /\ (rule_weight ρ <= 0 -> s' <= s).
Proof.
  intros Hin Hd Hv _ _ Hle. pose proof (valid_has_scored_fields row Hv) as Hf.
  destruct (score_patient_insert ρ row v v' Hin Hf) as (s & s' & Hs & Hs' & E).
  destruct (contribution_monotone ρ v v' Hd Hle) as [Hup Hdown].
  exists s, s'. split; [done|]. split; [done|].
  split; intros Hw; [specialize (Hup Hw)|specialize (Hdown Hw)]; lra.
Qed.

Lemma score_monotone_witness :
  (exists s s',
      score_patient (<["Dexamethasone_mg" := 2]> all_on) = Ok s
      /\ score_patient (<["Dexamethasone_mg" := 8]> all_on) = Ok s'
      /\ (0 <= -1 -> s <= s')
      /\ (-1 <= 0 -> s' <= s))
  /\ (exists s s',
      score_patient (<["Vomiting_gt_2" := 0]> all_on) = Ok s
      /\ score_patient (<["Vomiting_gt_2" := 3]> all_on) = Ok s'
      /\ (0 <= 2 -> s <= s')
      /\ (2 <= 0 -> s' <= s)).
Proof.
  split.
  - apply (score_monotone (Threshold "Dexamethasone_mg" Ge 4 (-1)) all_on 2 8).
    + in_list.
    + reflexivity.
    + reflexivity.
    + reflexivity.
    + reflexivity.
    + discriminate.
  - apply (score_monotone (Binary "Vomiting_gt_2" 2) all_on 0 3).
    + in_list.
    + reflexivity.
    + reflexivity.
    + reflexivity.
    + reflexivity.
    + discriminate.
Defined.

(** X4. A dose counts only through the comparison with its threshold: two
    values of the field of a threshold rule on the same side of the
    threshold give the same score. *)
Theorem score_constant_within_band (f : string) (cmp : comparator) (t w : Q)
    (row : Series) (v v' : Q) :
  Threshold f cmp t w ∈ score_rules ->
  has_fields scored_fields row ->
  holds cmp v t = holds cmp v' t ->
  exists s s',
    score_patient (<[f := v]> row) = Ok s
    /\ score_patient (<[f := v']> row) = Ok s'
    /\ s == s'.
Proof.
  intros Hin Hf Hsame.
  destruct (score_patient_insert _ row v v' Hin Hf) as (s & s' & Hs & Hs' & E).
  simpl in *. rewrite Hsame in E.
  exists s, s'. split; [done|]. split; [done|]. lra.
Qed.

Lemma score_constant_within_band_witness :
  exists s s',
    score_patient (<["Nalbuphine_mg" := 50.5]> baseline) = Ok s
    /\ score_patient (<["Nalbuphine_mg" := 160]> baseline) = Ok s'
    /\ s == s'.
Proof.
  apply (score_constant_within_band "Nalbuphine_mg" Gt 50 1 baseline 50.5 160).
  - in_list.
  - apply has_fields_decide. reflexivity.
  - reflexivity.
Defined.

Lemma thresholds_positive :
  Forall (fun ρ => match ρ with
                   | Threshold _ _ t _ => 0 < t
                   | Binary _ _ => True
                   end) score_rules.
Proof. unfold score_rules. repeat constructor. Qed.

(** X5. Nothing tells a negative dose from no dose: on the field of any
    rule with a comparison, a value at or below zero scores as zero
    does. *)
Theorem nonpositive_dose_scores_as_zero (f : string) (cmp : comparator) (t w : Q)
    (row : Series) (v : Q) :
  Threshold f cmp t w ∈ score_rules ->
  has_fields scored_fields row ->
  v <= 0 ->
  exists s s0,
    score_patient (<[f := v]> row) = Ok s
    /\ score_patient (<[f := 0]> row) = Ok s0
    /\ s == s0.
Proof.
  intros Hin Hf Hv.
  pose proof (proj1 (Forall_forall _ _) thresholds_positive _ Hin) as Ht.
  simpl in Ht.
  destruct (score_patient_insert _ row v 0 Hin Hf) as (s & s0 & Hs & Hs0 & Hd).
  simpl in Hs, Hs0, Hd. exists s, s0. split; [done|]. split; [done|].
  cut (holds cmp v t = holds cmp 0 t); [intros Hsame; rewrite Hsame in Hd; lra|].
  clear Hd.
  assert (forall x, x <= 0 -> holds cmp x t = false) as Hfalse.
  { intros x Hx. destruct cmp; simpl; unfold num_ge, num_gt, num_eq.
    - destruct (Qle_bool t x) eqn:E; [|done]. apply Qle_bool_iff in E. lra.
    - destruct (Qle_bool x t) eqn:E; [done|]. apply Qle_bool_false in E. lra.
    - destruct (Qeq_bool x t) eqn:E; [|done]. apply Qeq_bool_iff in E. lra. }
  rewrite (Hfalse v Hv), (Hfalse 0); [done|lra].
Qed.

Lemma nonpositive_dose_scores_as_zero_witness :
  exists s s0,
    score_patient (<["Fentanyl_mcg_per_kg" := -3]> all_on) = Ok s
    /\ score_patient (<["Fentanyl_mcg_per_kg" := 0]> all_on) = Ok s0
    /\ s == s0.
Proof.
  apply (nonpositive_dose_scores_as_zero "Fentanyl_mcg_per_kg" Gt 5 3 all_on (-3)).
  - in_list.
  - apply has_fields_decide. reflexivity.
  - discriminate.
Defined.

(** ** Scoring a frame *)

Lemma mapM_result_inv {A B} (f : A -> result B) (l : list A) k :
  mapM f l = Ok k -> Forall2 (fun x y => f x = Ok y) l k.
Proof.
  revert k. induction l as [|x l IH]; intros k; simpl.
  - intros [= <-]. constructor.
  - destruct (f x) as [y|e] eqn:Hy; simpl; [|done].
    destruct (mapM f l) as [k'|e] eqn:Hk; simpl; [|done].
    intros [= <-]. constructor; [done|by apply IH].
Qed.

Lemma mapM_result_ext {A B} (f g : A -> result B) (l : list A) :
  (forall x, x ∈ l -> f x = g x) -> mapM f l = mapM g l.
Proof.
  induction l as [|x l IH]; intros H; [done|].
  simpl. rewrite (H x) by by left. rewrite IH; [done|].
  intros z Hz. apply H. by right.
Qed.

Lemma iloc_None cols n i f :
  f ∉ cols.*1 -> iloc {| index := n; data := cols |} i !! f = None.
Proof.
  induction cols as [|c cols IH]; intros Hf; [done|].
  rewrite fmap_cons in Hf. apply not_elem_of_cons in Hf as [Hne Hf].
  rewrite iloc_cons. destruct (c.2 !! i); [|by apply IH].
  rewrite lookup_insert_ne by done. by apply IH.
Qed.

Lemma set_column_twice name values values' cols :
  set_column name values (set_column name values' cols) = set_column name values cols.
Proof.
  induction cols as [|c cols IH]; simpl.
  - by rewrite decide_True.
  - destruct (decide (c.1 = name)); simpl.
    + by rewrite decide_True.
    + rewrite decide_False by done. by rewrite IH.
Qed.

Lemma set_column_labels name values cols :
  (set_column name values cols).*1
  = if decide (name ∈ cols.*1) then cols.*1 else (cols.*1 ++ [name])%list.
Proof.
  induction cols as [|c cols IH].
  - destruct (decide (name ∈ [].*1)) as [Hin|_]; [by apply elem_of_nil in Hin|done].
  - rewrite fmap_cons. cbn [set_column].
    destruct (decide (c.1 = name)) as [Heq|Hne].
    + rewrite decide_True by (rewrite Heq; by left). by rewrite fmap_cons, Heq.
    + rewrite fmap_cons, IH. destruct (decide (name ∈ cols.*1)) as [Hin|Hnin].
      * rewrite decide_True by by right. done.
      * rewrite decide_False; [done|].
        rewrite not_elem_of_cons. split; [congruence|done].
Qed.

Lemma score_label_not_scored : "Hybrid_PONV_Score" ∉ scored_fields.
Proof. apply (bool_decide_unpack _). by vm_compute. Qed.

(** The scores of the rows of a frame, as [apply] collects them. *)
Lemma apply_rows_scores df scores :
  apply_rows score_patient df = Ok scores ->
  length scores = index df
  /\ forall i, (i < index df)%nat ->
       exists s, scores !! i = Some s /\ score_patient (iloc df i) = Ok s.
Proof.
  unfold apply_rows. intros H. apply mapM_result_inv in H.
  pose proof (Forall2_length _ _ _ H) as Hlen. rewrite length_seq in Hlen.
  split; [done|]. intros i Hi.
  destruct (Forall2_lookup_l _ _ _ i i H) as (s & Hs & Hsc).
  { by rewrite lookup_seq_lt. }
  by exists s.
Qed.

(** X7. A frame without one of the scored columns cannot be scored: with at
    least one row, line 120 raises [AttributeError] for the first scored
    field that is not a column. *)
Theorem missing_column_fails_scoring (df : DataFrame)
    (before after : list string) (f : string) :
  well_formed df ->
  (0 < index df)%nat ->
  scored_fields = (before ++ f :: after)%list ->
  Forall (fun b => b ∈ columns df) before ->
  f ∉ columns df ->
  add_score_column df = Raise (AttributeError f).
Proof.
  intros [Hlen _] Hpos Hsplit Hb Hf. destruct df as [n cols]. simpl in *.
  unfold add_score_column, apply_rows. simpl.
  destruct n as [|n]; [lia|]. simpl.
  rewrite score_patient_rules.
  rewrite (run_rules_first_missing score_rules _ 0 before after f); [done|done| |].
  - eapply Forall_impl; [exact Hb|]. intros b Hin.
    apply iloc_is_Some; [done|lia|done].
  - by apply iloc_None.
Qed.

Lemma missing_column_fails_scoring_witness :
  add_score_column {| index := 2; data := drop 1 (data two_patients) |}
  = Raise (AttributeError "Gender_Female").
Proof.
  apply (missing_column_fails_scoring
           {| index := 2; data := drop 1 (data two_patients) |}
           [] (drop 1 scored_fields) "Gender_Female").
  - split; apply (bool_decide_unpack _); by vm_compute.
  - simpl. lia.
  - reflexivity.
  - constructor.
  - apply (bool_decide_unpack _). by vm_compute.
Defined.

(** X8. Scoring is idempotent: the score column is not read by
    [score_patient] and is overwritten in place, so scoring a scored frame
    gives the same frame again. *)
Theorem rescoring_is_idempotent (df out : DataFrame) :
  add_score_column df = Ok out ->
  add_score_column out = Ok out.
Proof.
  intros Hout. apply add_score_column_inv in Hout as (scores & Hsc & ->).
  destruct (apply_rows_scores df scores Hsc) as [Hlen Hrows].
  unfold add_score_column.
  assert (apply_rows score_patient (setitem df "Hybrid_PONV_Score" scores)
          = Ok scores) as ->.
  { rewrite <- Hsc. unfold apply_rows. simpl. apply mapM_result_ext.
    intros i Hi. apply elem_of_seq in Hi.
    destruct (Hrows i) as (s & Hs & _); [lia|].
    destruct df as [n cols]. unfold setitem. simpl.
    rewrite (iloc_set_column _ _ _ _ _ s Hs).
    apply score_patient_agree. intros f Hf. apply lookup_insert_ne.
    intros <-. by apply score_label_not_scored. }
  simpl. unfold setitem. simpl. by rewrite set_column_twice.
Qed.

Lemma rescoring_is_idempotent_witness :
  add_score_column (setitem two_patients "Hybrid_PONV_Score" [21; 0])
  = Ok (setitem two_patients "Hybrid_PONV_Score" [21; 0]).
Proof.
  apply (rescoring_is_idempotent two_patients). reflexivity.
Defined.

(** X9. Scoring keeps a frame well formed and touches no other column: the
    labels are those of the input, with the score label appended when it
    was not there, and every column under another label is unchanged. *)
Theorem scoring_keeps_frame (df out : DataFrame) :
  well_formed df ->
  add_score_column df = Ok out ->
  well_formed out
  /\ columns out = (if decide ("Hybrid_PONV_Score" ∈ columns df)
                    then columns df
                    else (columns df ++ ["Hybrid_PONV_Score"])%list)
  /\ (forall c, c ∈ data df -> c.1 ≠ "Hybrid_PONV_Score" -> c ∈ data out).
Proof.
  intros [Hlen Hnd] Hout. apply add_score_column_inv in Hout as (scores & Hsc & ->).
  destruct (apply_rows_scores df scores Hsc) as [Hslen _].
  assert (columns (setitem df "Hybrid_PONV_Score" scores)
          = (if decide ("Hybrid_PONV_Score" ∈ columns df)
             then columns df
             else (columns df ++ ["Hybrid_PONV_Score"])%list)) as Hcols.
  { apply set_column_labels. }
  split; [split|split; [done|]].
  - simpl. clear Hnd Hcols Hsc. induction Hlen as [|c cols Hc Hrest IH]; simpl.
    + by repeat constructor.
    + destruct (decide (c.1 = "Hybrid_PONV_Score")); constructor; done.
  - rewrite Hcols. destruct (decide _) as [Hin|Hnin]; [done|].
    apply NoDup_app. split; [done|]. split; [|apply NoDup_singleton].
    intros x Hx Hx'. apply list_elem_of_singleton in Hx' as ->. done.
  - intros c Hin Hne. by apply set_column_other.
Qed.

Lemma scoring_keeps_frame_witness :
  well_formed (setitem two_patients "Hybrid_PONV_Score" [21; 0])
  /\ columns (setitem two_patients "Hybrid_PONV_Score" [21; 0])
     = (if decide ("Hybrid_PONV_Score" ∈ columns two_patients)
        then columns two_patients
        else (columns two_patients ++ ["Hybrid_PONV_Score"])%list)
  /\ (forall c, c ∈ data two_patients -> c.1 ≠ "Hybrid_PONV_Score" ->
        c ∈ data (setitem two_patients "Hybrid_PONV_Score" [21; 0])).
Proof.
  apply (scoring_keeps_frame two_patients).
  - split; apply (bool_decide_unpack _); by vm_compute.
  - reflexivity.
Defined.

(** ** The generated cohort *)

Lemma draw_columns_mem RandomState draw cols n (g : RandomState) c :
  c ∈ cols ->
  exists g', (c.1, (draw c.2 n g').1) ∈ draw_columns RandomState draw cols n g.
Proof.
  revert g. induction cols as [|c0 cols IH]; intros g Hin.
  - by apply elem_of_nil in Hin.
  - simpl. destruct (draw c0.2 n g) as [a g1] eqn:Hd.
    apply elem_of_cons in Hin as [->|Hin].
    + exists g. rewrite Hd. by left.
    + destruct (IH g1 Hin) as (g' & Hg'). exists g'. by right.
Qed.

Lemma draw_columns_elem RandomState draw cols n (g : RandomState) f a :
  (f, a) ∈ draw_columns RandomState draw cols n g ->
  exists c g', c ∈ cols /\ f = c.1 /\ a = (draw c.2 n g').1.
Proof.
  revert g. induction cols as [|c0 cols IH]; intros g Hin.
  - by apply elem_of_nil in Hin.
  - simpl in Hin. destruct (draw c0.2 n g) as [a0 g1] eqn:Hd.
    apply elem_of_cons in Hin as [[= -> ->]|Hin].
    + exists c0, g. rewrite Hd. split; [by left|done].
    + destruct (IH g1 Hin) as (c & g' & Hc & Hf & Ha).
      exists c, g'. split; [by right|done].
Qed.

Lemma iloc_lookup_Some cols n i f a x :
  NoDup cols.*1 -> (f, a) ∈ cols -> a !! i = Some x ->
  iloc {| index := n; data := cols |} i !! f = Some x.
Proof.
  induction cols as [|c cols IH]; intros Hnd Hin Hx.
  - by apply elem_of_nil in Hin.
  - rewrite fmap_cons in Hnd. apply NoDup_cons in Hnd as [Hfresh Hnd].
    rewrite iloc_cons. apply elem_of_cons in Hin as [<-|Hin].
    + simpl. rewrite Hx. apply lookup_insert_eq.
    + assert (c.1 ≠ f) as Hne.
      { intros Heq. apply Hfresh. rewrite Heq.
        by apply (list_elem_of_fmap_2 fst _ (f, a)). }
      destruct (c.2 !! i); [rewrite lookup_insert_ne by done|]; by apply IH.
Qed.

Lemma field_names_NoDup : NoDup field_names.
Proof. apply (bool_decide_unpack _). by vm_compute. Qed.

Lemma support_in_domain :
  Forall (fun c : string * sampler =>
            forall v, in_support c.2 v = true -> in_domain c.2 v = true)
         generated_columns.
Proof.
  unfold generated_columns.
  repeat (constructor;
          [intros v; simpl; unfold is_binary; intros H;
           first [by rewrite orb_false_r in H
                 | by apply andb_true_iff in H as [H _]]|]).
  constructor.
Qed.

Lemma generated_lengths RandomState random_seed
    (random_draw : sampler -> nat -> RandomState -> list Q * RandomState) n seed :
  draws_ok random_draw n ->
  Forall (fun c : string * list Q => length c.2 = n)
         (data (generate_synthetic_data RandomState random_seed random_draw n seed)).
Proof.
  intros Hok. apply Forall_forall. intros [f a] Hin.
  apply draw_columns_elem in Hin as (c & g' & Hc & -> & ->).
  apply (Hok c g' Hc).
Qed.

Lemma generated_rows_valid RandomState random_seed
    (random_draw : sampler -> nat -> RandomState -> list Q * RandomState) n seed i :
  draws_ok random_draw n -> (i < n)%nat ->
  valid_record
    (iloc (generate_synthetic_data RandomState random_seed random_draw n seed) i)
  = true.
Proof.
  intros Hok Hi. unfold valid_record. apply forallb_forall. intros c Hc.
  apply list_elem_of_In in Hc.
  destruct (draw_columns_mem RandomState random_draw generated_columns n
              (random_seed seed) c Hc) as (g' & Hmem).
  destruct (Hok c g' Hc) as [Hlen Hsup].
  destruct (lookup_lt_is_Some_2 (random_draw c.2 n g').1 i) as [v Hv]; [lia|].
  unfold field_ok, generate_synthetic_data.
  assert (NoDup (draw_columns RandomState random_draw generated_columns n
                   (random_seed seed)).*1) as Hnd.
  { rewrite draw_columns_labels. apply field_names_NoDup. }
  rewrite (iloc_lookup_Some _ _ _ _ _ v Hnd Hmem Hv).
  apply (proj1 (Forall_forall _ _) support_in_domain c Hc).
  apply (proj1 (Forall_forall _ _) Hsup).
  by eapply list_elem_of_lookup_2.
Qed.

(** X10. Whatever the generator draws, as long as each draw has [n] samples
    from the support of its sampler, the generated cohort is a well-formed
    frame of [n] rows over the 30 columns of the schema, and each of its
    rows is a valid record. *)
Theorem generated_cohort_is_valid RandomState random_seed
    (random_draw : sampler -> nat -> RandomState -> list Q * RandomState)
    (n seed : nat) :
  draws_ok random_draw n ->
  let raw_data := generate_synthetic_data RandomState random_seed random_draw n seed in
  well_formed raw_data
  /\ index raw_data = n
  /\ columns raw_data = field_names
  /\ (forall i, (i < n)%nat -> valid_record (iloc raw_data i) = true).
Proof.
  intros Hok raw_data.
  split; [split|split; [done|split; [apply generated_labels|]]].
  - by apply generated_lengths.
  - unfold raw_data. rewrite generated_labels. apply field_names_NoDup.
  - intros i Hi. by apply generated_rows_valid.
Qed.

Lemma steady_draw_ok n : draws_ok steady_draw n.
Proof.
  intros c g Hc. unfold steady_draw. simpl. split.
  - apply length_replicate.
  - apply Forall_replicate. revert c Hc. apply Forall_forall.
    unfold generated_columns. repeat constructor.
Qed.

Lemma generated_cohort_is_valid_witness :
  let raw_data := generate_synthetic_data unit (fun _ => tt) steady_draw 3 42 in
  well_formed raw_data
  /\ index raw_data = 3%nat
  /\ columns raw_data = field_names
  /\ (forall i, (i < 3)%nat -> valid_record (iloc raw_data i) = true).
Proof.
  apply (generated_cohort_is_valid unit (fun _ => tt) steady_draw 3 42).
  apply steady_draw_ok.
Defined.

(** ** From the generator to the page *)

Lemma apply_rows_total df :
  (forall i, (i < index df)%nat -> has_fields scored_fields (iloc df i)) ->
  exists scores, apply_rows score_patient df = Ok scores.
Proof.
  intros H.
  destruct (mapM_result_lookup (fun i => score_patient (iloc df i))
              (seq 0 (index df))) as (scores & Hm & _).
  { intros i Hi. apply elem_of_seq in Hi.
    destruct (score_patient_total (iloc df i)) as (s & Hs & _); [apply H; lia|].
    by exists s. }
  by exists scores.
Qed.

(** The score column of a frame of valid records. *)
Lemma valid_frame_scores df :
  (forall i, (i < index df)%nat -> valid_record (iloc df i) = true) ->
  exists scores,
    add_score_column df = Ok (setitem df "Hybrid_PONV_Score" scores)
    /\ length scores = index df
    /\ forall i, (i < index df)%nat ->
         exists s, scores !! i = Some s
                   /\ iloc (setitem df "Hybrid_PONV_Score" scores) i
                        !! "Hybrid_PONV_Score" = Some s
                   /\ integral s /\ -9 <= s /\ s <= 30.
Proof.
  intros Hvalid.
  destruct (apply_rows_total df) as (scores & Hsc).
  { intros i Hi. by apply valid_has_scored_fields, Hvalid. }
  destruct (apply_rows_scores df scores Hsc) as [Hlen Hrows].
  exists scores. split; [|split; [done|]].
  - unfold add_score_column. by rewrite Hsc.
  - intros i Hi. destruct (Hrows i Hi) as (s & Hs & Hscore).
    exists s. split; [done|]. split.
    + destruct df as [n cols]. unfold setitem. simpl.
      rewrite (iloc_set_column _ _ _ _ _ s Hs). apply lookup_insert_eq.
    + pose proof (Hvalid i Hi) as Hv.
      destruct (score_patient_total _ (valid_has_scored_fields _ Hv))
        as (s' & Hs' & Heq).
      rewrite Hscore in Hs'. injection Hs' as <-.
      rewrite Heq. split; [by apply valid_total_integral|].
      by apply valid_total_bounds.
Qed.

(** X11. On a generated cohort the scoring never fails: under the same
    condition on the draws, line 120 returns a frame, and the score it stores
    for each row is an integer between -9 and 30. *)
Theorem generated_cohort_is_scored RandomState random_seed
    (random_draw : sampler -> nat -> RandomState -> list Q * RandomState)
    (n seed : nat) :
  draws_ok random_draw n ->
  exists out,
    add_score_column
      (generate_synthetic_data RandomState random_seed random_draw n seed) = Ok out
    /\ index out = n
    /\ forall i, (i < n)%nat ->
         exists s, iloc out i !! "Hybrid_PONV_Score" = Some s
                   /\ integral s /\ -9 <= s /\ s <= 30.
Proof.
  intros Hok.
  destruct (valid_frame_scores
              (generate_synthetic_data RandomState random_seed random_draw n seed))
    as (scores & Hout & _ & Hrows).
  { intros i Hi. by apply generated_rows_valid. }
  eexists. split; [exact Hout|]. split; [done|].
  intros i Hi. destruct (Hrows i Hi) as (s & _ & Hs & Hint & Hb).
  by exists s.
Qed.

Lemma generated_cohort_is_scored_witness :
  exists out,
    add_score_column (generate_synthetic_data unit (fun _ => tt) steady_draw 3 42)
    = Ok out
    /\ index out = 3%nat
    /\ forall i, (i < 3)%nat ->
         exists s, iloc out i !! "Hybrid_PONV_Score" = Some s
                   /\ integral s /\ -9 <= s /\ s <= 30.
Proof.
  apply (generated_cohort_is_scored unit (fun _ => tt) steady_draw 3 42).
  apply steady_draw_ok.
Defined.

(** ** The preview *)

Lemma iloc_head k df i : (i < k)%nat -> iloc (head k df) i = iloc df i.
Proof.
  intros Hi. unfold iloc, head. simpl. f_equal.
  induction (data df) as [|c cols IH]; [done|].
  csimpl. rewrite lookup_take_lt by done. by rewrite IH.
Qed.

Lemma head_columns k df : columns (head k df) = columns df.
Proof. unfold columns, head. simpl. by rewrite <- list_fmap_compose. Qed.

(** X12. The preview [head(k)] is the frame cut after its first [k] rows:
    same columns, [min k n] rows, each equal to the row of the same position
    in the frame, and well formed when the frame is. *)
Theorem head_is_prefix (k : nat) (df : DataFrame) :
  well_formed df ->
  well_formed (head k df)
  /\ index (head k df) = Nat.min k (index df)
  /\ columns (head k df) = columns df
  /\ forall i, (i < k)%nat -> iloc (head k df) i = iloc df i.
Proof.
  intros [Hlen Hnd].
  pose proof (head_columns k df) as Hcols.
  split; [split|split; [done|split; [done|]]].
  - simpl. apply Forall_fmap. eapply Forall_impl; [exact Hlen|].
    intros c Hc. simpl. by rewrite length_take, Hc.
  - by rewrite Hcols.
  - intros i Hi. by apply iloc_head.
Qed.

Lemma head_is_prefix_witness :
  well_formed (head 1 two_patients)
  /\ index (head 1 two_patients) = Nat.min 1 (index two_patients)
  /\ columns (head 1 two_patients) = columns two_patients
  /\ forall i, (i < 1)%nat -> iloc (head 1 two_patients) i = iloc two_patients i.
Proof.
  apply (head_is_prefix 1 two_patients).
  split; apply (bool_decide_unpack _); by vm_compute.
Defined.



(** ** The shape of the exported text *)

Lemma occurrences_app a s1 s2 :
  occurrences a (s1 ++ s2) = (occurrences a s1 + occurrences a s2)%nat.
Proof. induction s1 as [|b s1 IH]; simpl; [done|]. rewrite IH. lia. Qed.

Lemma plain_cell_occurrences a cell :
  needs_quote cell = false ->
  a ∈ [","%char; dquote; "010"%char; "013"%char] ->
  occurrences a cell = 0%nat.
Proof.
  unfold needs_quote. intros Hq Ha. induction cell as [|b cell IH]; [done|].
  simpl in Hq. apply orb_false_iff in Hq as [Hb Hq].
  apply bool_decide_eq_false in Hb. simpl.
  rewrite decide_False by (intros ->; done). by rewrite IH.
Qed.

Lemma csv_cell_plain cell : needs_quote cell = false -> csv_cell cell = cell.
Proof. unfold csv_cell. by intros ->. Qed.

Lemma occurrences_concat_plain a sep cells :
  Forall (fun c => occurrences a c = 0%nat) cells ->
  occurrences a (String.concat sep cells)
  = ((length cells - 1) * occurrences a sep)%nat.
Proof.
  induction 1 as [|c cells Hc Hrest IH]; [done|].
  destruct cells as [|c' cells].
  - simpl. rewrite Hc. lia.
  - change (String.concat sep (c :: c' :: cells))
      with (c ++ sep ++ String.concat sep (c' :: cells)).
    rewrite !occurrences_app, IH, Hc. simpl. lia.
Qed.

(** A record of plain cells has one comma less than it has cells, and no
    line feed. *)
Lemma occurrences_csv_record a cells :
  Forall (fun c => needs_quote c = false) cells ->
  a ∈ [","%char; "010"%char] ->
  occurrences a (csv_record cells)
  = if decide (a = ","%char) then (length cells - 1)%nat else 0%nat.
Proof.
  intros Hplain Ha.
  assert (a = ","%char \/ a = "010"%char) as Hcases.
  { apply elem_of_cons in Ha as [->|Ha]; [by left|].
    apply list_elem_of_singleton in Ha as ->. by right. }
  assert (occurrences a (String.concat "," (csv_cell <$> cells))
          = if decide (a = ","%char) then (length cells - 1)%nat else 0%nat) as Hjoin.
  { assert (csv_cell <$> cells = cells) as ->.
    { induction Hplain as [|c cells Hc _ IH]; [done|].
      by rewrite fmap_cons, IH, csv_cell_plain. }
    rewrite occurrences_concat_plain.
    - destruct Hcases as [-> | ->]; simpl; lia.
    - eapply Forall_impl; [exact Hplain|]. intros c Hc.
      apply plain_cell_occurrences; [done|].
      destruct Hcases as [-> | ->]; in_list. }
  unfold csv_record. destruct cells as [|[|b c] [|c' cells]]; try exact Hjoin.
  destruct Hcases as [-> | ->]; reflexivity.
Qed.

Lemma append_assoc (s1 s2 s3 : string) : (s1 ++ s2) ++ s3 = s1 ++ (s2 ++ s3).
Proof.
  induction s1 as [|a s1 IH]; [done|].
  change (String a ((s1 ++ s2) ++ s3) = String a (s1 ++ (s2 ++ s3))).
  by rewrite IH.
Qed.

Lemma lines_of_line body rest :
  occurrences "010"%char body = 0%nat ->
  lines_of (body ++ String "010" rest) = body :: lines_of rest.
Proof.
  induction body as [|a body IH]; intros Hb.
  - change (lines_of (String "010" rest) = EmptyString :: lines_of rest).
    reflexivity.
  - simpl in Hb. destruct (decide ("010"%char = a)) as [|Hne]; [done|].
    change (lines_of (String a (body ++ String "010" rest))
            = String a body :: lines_of rest).
    cbn [lines_of]. rewrite decide_False by done. by rewrite IH.
Qed.

Lemma lines_of_csv records :
  Forall (fun r => occurrences "010"%char (csv_record r) = 0%nat) records ->
  lines_of (String.concat EmptyString (csv_line <$> records))
  = csv_record <$> records.
Proof.
  induction 1 as [|r records Hr Hrest IH]; [done|].
  rewrite !fmap_cons, <- IH.
  assert (String.concat EmptyString (csv_line r :: (csv_line <$> records))
          = csv_record r
            ++ String "010" (String.concat EmptyString (csv_line <$> records))) as ->.
  { unfold csv_line at 1. destruct records as [|r' records].
    - reflexivity.
    - rewrite fmap_cons.
      change (String.concat EmptyString (?x :: ?y :: ?l))
        with (x ++ String.concat EmptyString (y :: l)).
      by rewrite append_assoc. }
  by rewrite lines_of_line.
Qed.

(** X14. The exported text is rectangular: when neither a column label nor
    the printed form of a number needs quoting, the CSV has one line per
    record (the header and the rows), and every one of its lines has one
    comma less than there are columns. *)
Theorem csv_text_is_rectangular (repr : Q -> string) (df : DataFrame) :
  (forall q, needs_quote (repr q) = false) ->
  Forall (fun l => needs_quote l = false) (columns df) ->
  length (lines_of (to_csv repr df)) = S (index df)
  /\ Forall (fun line => occurrences ","%char line
                         = (length (columns df) - 1)%nat)
            (lines_of (to_csv repr df)).
Proof.
  intros Hrepr Hlabels.
  assert (Forall (fun r => Forall (fun c => needs_quote c = false) r
                           /\ length r = length (columns df))
            (csv_records repr df)) as Hrec.
  { unfold csv_records. constructor; [done|].
    apply Forall_fmap, Forall_forall. intros i _. simpl. unfold row_cells. split.
    - apply Forall_fmap, Forall_forall. intros c _. simpl.
      destruct (c.2 !! i); simpl; [apply Hrepr|reflexivity].
    - unfold columns. by rewrite !length_fmap. }
  unfold to_csv. rewrite lines_of_csv.
  - split.
    + rewrite length_fmap. unfold csv_records. cbn [length].
      by rewrite length_fmap, length_seq.
    + apply Forall_fmap. eapply Forall_impl; [exact Hrec|].
      intros r [Hr Hlen]. simpl.
      rewrite occurrences_csv_record; [|done|in_list]. by rewrite Hlen.
  - eapply Forall_impl; [exact Hrec|]. intros r [Hr _]. simpl.
    rewrite occurrences_csv_record; [done|done|in_list].
Qed.

Lemma csv_text_is_rectangular_witness :
  length (lines_of (to_csv (fun _ => "0") two_patients)) = 3%nat
  /\ Forall (fun line => occurrences ","%char line = 29%nat)
            (lines_of (to_csv (fun _ => "0") two_patients)).
Proof.
  apply (csv_text_is_rectangular (fun _ => "0") two_patients).
  - intros q. reflexivity.
  - apply (bool_decide_unpack _). by vm_compute.
Defined.

(** ** The layout of the export *)





